(** * dqn.py: a Deep Q-Learning trainer for CartPole-v1

    A shallow embedding of [src/dqn.py] and the properties its
    specification states about it.

    Conventions of the embedding.
    - In the loops of the script Python [float]s, numpy [float64]s and
      [float32] tensor entries are real numbers ([R]); rounding, overflow
      and NaN are outside that model. The function [decay] is given a
      second time as Python computes it, in binary64 (module [Binary64]),
      and what is said of its exact values is decided there.
    - Python [int]s that only count ([eps_count], [step], [t], lengths,
      indices) are [nat].
    - The script's module-level variables are the fields of one record,
      threaded through a step function; an exception or a loop that never
      ends is [None].
    - Tensors live in a heap indexed by tensor identities, so that what the
      optimizer and [load_state_dict] write to is decided by identity.
    - What the script calls and does not define (the environment, the
      random generators, the numeric kernels of torch) is a variable of the
      section; small deterministic doubles of them are defined first. *)

From Stdlib Require Import Reals Lra Lia Floats.
From stdpp Require Import gmap strings functions.

Set Warnings "-abstract-large-number".
Set Warnings "-inexact-float".

(* ===================================================================== *)
(** ** collections.deque *)
(* ===================================================================== *)

Module Deque.

  (** [deque(iterable, maxlen)]: the items from left to right, and the
      bound, [None] for an unbounded deque. *)
Record deque (A : Type) : Type := mk {
    items : list A;
    maxlen : option nat
  }.
  Arguments mk {A} _ _.
  Arguments items {A} _.
  Arguments maxlen {A} _.

  (** [deque(maxlen=m)] and [deque([])]. *)
Definition empty {A : Type} (m : option nat) : deque A := mk [] m.

  (** [len(d)]. *)
Definition len {A : Type} (d : deque A) : nat := length (items d).

  (** [d.popleft()]: [IndexError] on an empty deque. *)
Definition popleft {A : Type} (d : deque A) : option (A * deque A) :=
  match items d with
  | [] => None
  | x :: rest => Some (x, mk rest (maxlen d))
  end.

  (** [d.append(x)]: the item goes to the right end; when the deque is
      bounded and now longer than its bound, one item is dropped from the
      left end. *)
Definition append {A : Type} (x : A) (d : deque A) : deque A :=
  let grown := items d ++ [x] in
  match maxlen d with
  | Some m => if m <? length grown then mk (tail grown) (Some m) else mk grown (Some m)
  | None => mk grown None
  end.

  (** Appending a whole sequence, in order. *)
Definition extend {A : Type} (xs : list A) (d : deque A) : deque A :=
  fold_left (fun acc x => append x acc) xs d.

End Deque.

(* ===================================================================== *)
(** ** What the script calls and does not define *)
(* ===================================================================== *)

(** Python's module-level generator ([import random]). *)
Record RandomImpl : Type := {
  generator : Type;
  (** [random.random()]: a float in [[0, 1)] and the next generator state. *)
  random_random : generator -> R * generator;
  (** [Random._randbelow(n)]: an integer below [n], for [n > 0]. *)
  randbelow : nat -> generator -> nat * generator
}.

(** The gymnasium environment: an observation is a vector of floats, an
    action an index. *)
Record EnvImpl : Type := {
  environment : Type;
  (** [gym.make("CartPole-v1", render_mode=...)]. *)
  gym_make : option string -> environment;
  (** [env.reset()], the [info] dropped. *)
  env_reset : environment -> list R * environment;
  (** [env.step(action)]: [(s1, reward, term, trunc)], the [info] dropped. *)
  env_step : nat -> environment -> (list R * R * bool * bool) * environment;
  (** [env.action_space.sample()]. *)
  action_space_sample : environment -> nat * environment;
  (** [env.render()]. *)
  env_render : environment -> environment
}.

(** The numeric kernels of torch: what a tensor of parameters is, the two
    affine layers of [Network] on one input row, differentiation of a scalar
    that was computed from the parameters, and the update rule of Adam. *)
Record TorchImpl : Type := {
  tensor : Type;
  (** [nn.Linear(4, 64)] with the given weight and bias. *)
  linear_4_64 : tensor -> tensor -> list R -> list R;
  (** [nn.Linear(64, 2)] with the given weight and bias: one value per
      action. *)
  linear_64_2 : tensor -> tensor -> list R -> R * R;
  (** Accumulation of a gradient into [.grad]. *)
  tensor_add : tensor -> tensor -> tensor;
  (** The derivative, at the given parameter values, of a scalar computed
      from them, with respect to the parameter of the given identity. *)
  autograd : ((nat -> tensor) -> option R) -> (nat -> tensor) -> nat -> tensor;
  (** The per-parameter state of Adam, and one Adam update of a parameter
      from its gradient at the given learning rate. *)
  adam_state : Type;
  adam : R -> option adam_state -> tensor -> tensor -> adam_state * tensor
}.

(* ===================================================================== *)
(** ** Deterministic doubles of the collaborators *)
(* ===================================================================== *)

Module Doubles.

  (** A generator that counts: the [i]-th call of [_randbelow(n)] answers
      [i mod n], and [random()] always answers one half. *)
Definition counting : RandomImpl := {|
  generator := nat;
  random_random := fun g => ((1 / 2)%R, S g);
  randbelow := fun n g => (g mod n, S g)
|}.

  (** The same generator with a [random()] that always answers 0, the
      least float it can answer. *)
Definition drawing_zero : RandomImpl := {|
  generator := nat;
  random_random := fun g => (0%R, S g);
  randbelow := fun n g => (g mod n, S g)
|}.

  (** An environment that counts its steps since the last reset: with
      [horizon] 500 it answers [reward = 1, done = False] to 500 steps and
      [done = True] (by truncation) to the next one. *)
Definition countdown (horizon : nat) : EnvImpl := {|
  environment := nat;
  gym_make := fun _ => 0;
  env_reset := fun _ => ([0; 0; 0; 0]%R, 0);
  env_step := fun _ e => (([0; 0; 0; 0]%R, 1%R, false, horizon <=? e), S e);
  action_space_sample := fun e => (0, e);
  env_render := fun e => e
|}.

  (** Kernels over one-number tensors: every layer answers with its bias,
      every gradient is 1 and Adam subtracts the scaled gradient. *)
Definition scalar : TorchImpl := {|
  tensor := R;
  linear_4_64 := fun _ b _ => [b];
  linear_64_2 := fun _ b _ => (b, b);
  tensor_add := Rplus;
  autograd := fun _ _ _ => 1%R;
  adam_state := unit;
  adam := fun lr _ p g => (tt, (p - lr * g)%R)
|}.

End Doubles.

(* ===================================================================== *)
(** ** random.sample *)
(* ===================================================================== *)

Module PyRandom.
Section Sample.

  Variable RI : RandomImpl.
  (** The number of rounds after which the model gives up on the rejection
      loop of [sample], which is a [while] with no bound in Python. *)
  Variable patience : nat.
  Context {A : Type}.

  (** [4 ** _ceil(_log(m, 4))]: the least power of four that is at least
      [m], found by multiplying from [p]. *)
Fixpoint pow4_from (fuel p m : nat) : nat :=
  match fuel with
  | 0 => p
  | S fuel' => if p <? m then pow4_from fuel' (4 * p) m else p
  end.

  (** The size under which [sample] copies the population into a list. *)
Definition setsize (k : nat) : nat :=
  21 + (if 5 <? k then pow4_from (3 * k) 1 (3 * k) else 0).

  (** The first branch of [sample]:
      [for i in range(k): j = randbelow(n - i); result[i] = pool[j];
       pool[j] = pool[n - i - 1]], with [todo] rounds left. *)
Fixpoint sample_pool (todo i n : nat) (pool : list A) (g : generator RI)
    : option (list A * generator RI) :=
  match todo with
  | 0 => Some ([], g)
  | S todo' =>
      let '(j, g1) := randbelow RI (n - i) g in
      x ← pool !! j;
      moved ← pool !! (n - i - 1);
      '(rest, g2) ← sample_pool todo' (S i) n (<[j := moved]> pool) g1;
      Some (x :: rest, g2)
  end.

  (** [j = randbelow(n); while j in selected: j = randbelow(n)]. *)
Fixpoint draw_fresh (fuel n : nat) (selected : gset nat) (g : generator RI)
    : option (nat * generator RI) :=
  match fuel with
  | 0 => None
  | S fuel' =>
      let '(j, g1) := randbelow RI n g in
      if decide (j ∈ selected) then draw_fresh fuel' n selected g1
      else Some (j, g1)
  end.

  (** The second branch of [sample]:
      [for i in range(k): <draw a fresh j>; selected.add(j);
       result[i] = population[j]]. *)
Fixpoint sample_set (todo n : nat) (population : list A) (selected : gset nat)
    (g : generator RI) : option (list A * generator RI) :=
  match todo with
  | 0 => Some ([], g)
  | S todo' =>
      '(j, g1) ← draw_fresh patience n selected g;
      x ← population !! j;
      '(rest, g2) ← sample_set todo' n population ({[j]} ∪ selected) g1;
      Some (x :: rest, g2)
  end.

  (** [random.sample(population, k)]: [ValueError] when the sample is larger
      than the population. *)
Definition sample (population : list A) (k : nat) (g : generator RI)
    : option (list A * generator RI) :=
  let n := length population in
  if n <? k then None
  else if n <=? setsize k then sample_pool k 0 n population g
  else sample_set k n population ∅ g.

  (** What the specification asks of a sample: [k] items of the population,
      taken at [k] distinct positions. *)
Definition valid_sample (population : list A) (k : nat) (result : list A) : Prop :=
  length result = k ∧
  ∃ positions : list nat,
    NoDup positions ∧
    Forall2 (fun i x => population !! i = Some x) positions result.

  (** What is assumed of the generator: [_randbelow(n)] answers below
      [n]. *)
Definition below : Prop :=
  ∀ n g, 0 < n → (randbelow RI n g).1 < n.

  (** What is assumed of the generator and of the bound of the model: the
      rejection loop of a sample of [k] items finds a fresh position within
      the bound. *)
Definition patient (k : nat) : Prop :=
  ∀ n (selected : gset nat) g,
    size selected < n → size selected < k →
    is_Some (draw_fresh patience n selected g).

End Sample.
End PyRandom.

(* ===================================================================== *)
(** ** torch: parameters, modules, autograd leaves, Adam *)
(* ===================================================================== *)

Module Torch.
Section Kernels.

  Variable TI : TorchImpl.

  (** An [nn.Parameter]: its values and its [.grad], [None] until a backward
      pass reaches it. *)
Record Param : Type := mkParam {
    data : tensor TI;
    grad : option (tensor TI)
  }.

  (** The parameters that exist, by identity. *)
Local Abbreviation heap := (nat -> Param).

  (** The values of all parameters, without their gradients. *)
Definition values (h : heap) : nat -> tensor TI := fun id => data (h id).

  (** A tensor that came out of a computation: its values and the
      parameters its [grad_fn] graph leads back to. *)
Record tracked (V : Type) : Type := mkTracked {
    value : V;
    leaves : list nat
  }.
  Arguments mkTracked {V} _ _.
  Arguments value {V} _.
  Arguments leaves {V} _.

  (** [torch.is_grad_enabled()]: on by default, and the script never enters
      [torch.no_grad()] nor calls [detach()]. *)
Definition grad_enabled : bool := true.

  (** [torch.as_tensor(array)]: data, with no graph behind it. *)
Definition as_tensor {V : Type} (v : V) : tracked V := mkTracked v [].

  (** Pointwise arithmetic of column tensors of one shape; a Python scalar
      is broadcast. *)
Definition t_add (x y : tracked (list R)) : tracked (list R) :=
  mkTracked (zip_with Rplus (value x) (value y)) (leaves x ++ leaves y).

Definition t_mul (x y : tracked (list R)) : tracked (list R) :=
  mkTracked (zip_with Rmult (value x) (value y)) (leaves x ++ leaves y).

Definition t_rsub (c : R) (x : tracked (list R)) : tracked (list R) :=
  mkTracked (map (fun v => c - v)%R (value x)) (leaves x).

Definition t_rmul (c : R) (x : tracked (list R)) : tracked (list R) :=
  mkTracked (map (fun v => c * v)%R (value x)) (leaves x).

  (** The row [[q0, q1]] of a pair of action values. *)
Definition row (q : R * R) : list R := [q.1; q.2].

  (** [torch.argmax] along a row: the scan keeps the first position of the
      greatest value, replacing it only by a strictly greater one. *)
Fixpoint argmax_from (best_i : nat) (best : R) (i : nat) (rest : list R) : nat :=
  match rest with
  | [] => best_i
  | x :: rest' =>
      if Rgt_dec x best then argmax_from i x (S i) rest'
      else argmax_from best_i best (S i) rest'
  end.

Definition argmax (r : list R) : option nat :=
  match r with
  | [] => None
  | x :: rest => Some (argmax_from 0 x 1 rest)
  end.

  (** The greatest value of a row. *)
Definition row_max (r : list R) : option R :=
  match r with
  | [] => None
  | x :: rest => Some (fold_left Rmax rest x)
  end.

  (** [t.max(dim=1, keepdim=True)[0]]. *)
Definition max_dim1 (q : tracked (list (R * R))) : option (tracked (list R)) :=
  vs ← mapM (fun qi => row_max (row qi)) (value q);
  Some (mkTracked vs (leaves q)).

  (** [torch.gather(input=q, dim=1, index=actions)]: [IndexError] on an
      index that is no column. *)
Definition gather (q : tracked (list (R * R))) (actions : list nat)
    : option (tracked (list R)) :=
  vs ← mapM (fun qa : (R * R) * nat => row qa.1 !! qa.2) (zip (value q) actions);
  Some (mkTracked vs (leaves q)).

  (** [nn.functional.smooth_l1_loss(input, target)] with its defaults
      ([beta = 1.0], [reduction = 'mean']). *)
Definition smooth_l1 (d : R) : R :=
  if Rlt_dec (Rabs d) 1 then (0.5 * d * d)%R else (Rabs d - 0.5)%R.

Definition mean (xs : list R) : R :=
  (fold_right Rplus 0 xs / INR (length xs))%R.

Definition smooth_l1_loss (input target : tracked (list R)) : tracked R :=
  mkTracked
    (mean (zip_with (fun x y => smooth_l1 (x - y)) (value input) (value target)))
    (leaves input ++ leaves target).

  (** *** class Network(nn.Module) *)

  (** The identities of the parameters of [self.net]: layer 0 is
      [nn.Linear(4, 64)], layer 1 [nn.Tanh()], layer 2 [nn.Linear(64, 2)]. *)
Record Network : Type := mkNetwork {
    net_0_weight : nat;
    net_0_bias : nat;
    net_2_weight : nat;
    net_2_bias : nat
  }.

  (** [Network()]: four parameters are allocated. *)
Definition Network_new (first_free : nat) : Network :=
  mkNetwork first_free (first_free + 1) (first_free + 2) (first_free + 3).

Definition named_parameters (net : Network) : list (string * nat) :=
  [ ("net.0.weight"%string, net_0_weight net);
    ("net.0.bias"%string, net_0_bias net);
    ("net.2.weight"%string, net_2_weight net);
    ("net.2.bias"%string, net_2_bias net) ].

  (** [net.parameters()]. *)
Definition parameters (net : Network) : list nat := (named_parameters net).*2.

  (** [Network.forward] on one row. *)
Definition forward (net : Network) (v : nat -> tensor TI) (t : list R) : R * R :=
  let t1 := linear_4_64 TI (v (net_0_weight net)) (v (net_0_bias net)) t in
  let t2 := map tanh t1 in
  linear_64_2 TI (v (net_2_weight net)) (v (net_2_bias net)) t2.

  (** [net(batch)]: [forward] on every row; in grad mode the result leads
      back to the parameters of the network. *)
Definition call (net : Network) (v : nat -> tensor TI) (batch : list (list R))
    : tracked (list (R * R)) :=
  mkTracked (map (forward net v) batch)
            (if grad_enabled then parameters net else []).

  (** [Network.act]: the state becomes a batch of one row, and the action
      is the [argmax] of its row of values. *)
Definition act (net : Network) (v : nat -> tensor TI) (state : list R) : option nat :=
  match value (call net v [state]) with
  | [q] => argmax (row q)
  | _ => None
  end.

  (** [net.state_dict()]. *)
Definition state_dict (net : Network) (h : heap) : gmap string (tensor TI) :=
  list_to_map (map (fun kp : string * nat => (kp.1, data (h kp.2))) (named_parameters net)).

  (** [param.copy_(input_param)] for each named parameter: the values are
      written into the parameter's own storage, its [.grad] stays. *)
Fixpoint copy_params (nps : list (string * nat)) (sd : gmap string (tensor TI))
    (h : heap) : option heap :=
  match nps with
  | [] => Some h
  | (key, id) :: nps' =>
      x ← sd !! key;
      copy_params nps' sd (<[id := mkParam x (grad (h id))]> h)
  end.

  (** [net.load_state_dict(sd)] with [strict=True]: [RuntimeError] on a
      missing or an unexpected key. *)
Definition load_state_dict (net : Network) (sd : gmap string (tensor TI)) (h : heap)
    : option heap :=
  if decide (dom sd = list_to_set (named_parameters net).*1)
  then copy_params (named_parameters net) sd h
  else None.

  (** *** loss.backward() *)

Definition accumulate (g : tensor TI) (p : Param) : Param :=
  mkParam (data p)
              (Some (match grad p with None => g | Some g0 => tensor_add TI g0 g end)).

  (** Every parameter the loss leads back to receives the derivative of the
      loss with respect to it, added to what its [.grad] holds. *)
Definition backward (loss_fn : (nat -> tensor TI) -> option R) (graph : list nat)
    (h : heap) : heap :=
  let v := values h in
  fold_left (fun acc id => <[id := accumulate (autograd TI loss_fn v id) (acc id)]> acc)
            (remove_dups graph) h.

  (** *** torch.optim.Adam *)

Record Optimizer : Type := mkOptimizer {
    params : list nat;
    lr : R;
    opt_state : gmap nat (adam_state TI)
  }.

  (** [torch.optim.Adam(params, lr=lr)]. *)
Definition Adam (ps : list nat) (rate : R) : Optimizer := mkOptimizer ps rate ∅.

  (** [optimizer.zero_grad()]: the [.grad] of the optimizer's own parameters
      is set to [None]. *)
Definition zero_grad (o : Optimizer) (h : heap) : heap :=
  fold_left (fun acc id => <[id := mkParam (data (acc id)) None]> acc) (params o) h.

  (** The update of one parameter: skipped when it has no gradient,
      otherwise written in place, with the state Adam keeps for it. *)
Definition update_param (oh : Optimizer * heap) (id : nat) : Optimizer * heap :=
  let '(o, h) := oh in
  match grad (h id) with
  | None => (o, h)
  | Some g =>
      let '(s, p) := adam TI (lr o) (opt_state o !! id) (data (h id)) g in
      (mkOptimizer (params o) (lr o) (<[id := s]> (opt_state o)),
       <[id := mkParam p (Some g)]> h)
  end.

  (** [optimizer.step()]: over the optimizer's own parameters. *)
Definition optimizer_step (o : Optimizer) (h : heap) : Optimizer * heap :=
  fold_left update_param (params o) (o, h).

End Kernels.

Arguments data {TI} _.
Arguments grad {TI} _.
Arguments mkParam {TI} _ _.
Arguments mkTracked {V} _ _.
Arguments value {V} _.
Arguments leaves {V} _.
Arguments params {TI} _.
Arguments lr {TI} _.
Arguments opt_state {TI} _.
Arguments mkOptimizer {TI} _ _ _.

Abbreviation heap TI := (nat -> Param TI).

End Torch.

(* ===================================================================== *)
(** ** The script *)
(* ===================================================================== *)

Module DQN.

Import Deque.

  (** [decay]: the annealed exploration rate, over the real numbers as the
      loops of the script are modelled; module [Binary64] has it as Python
      computes it. *)
Definition decay (eps_start eps_end eps_decayrate current_step : R) : R :=
  (eps_end + (eps_start - eps_end) * exp (-1 * eps_decayrate * current_step))%R.

Definition batch_size : nat := 32.
Definition gamma : R := 0.99%R.

Definition epsilon_start : R := 1%R.
Definition epsilon_end : R := 0.001%R.
Definition epsilon_decayrate : R := 0.003%R.

  (** [experience = (state, action, reward, done, s1)]. *)
Definition experience : Type := (list R * nat * R * bool * list R)%type.

Definition e0 (e : experience) : list R := e.1.1.1.1.
Definition e1 (e : experience) : nat := e.1.1.1.2.
Definition e2 (e : experience) : R := e.1.1.2.
Definition e3 (e : experience) : bool := e.1.2.
Definition e4 (e : experience) : list R := e.2.

  (** [torch.as_tensor(dones, dtype=torch.float32)] on one flag. *)
Definition float_of_bool (b : bool) : R := if b then 1%R else 0%R.

  (** [np.average] of a window of step counts. *)
Definition average (xs : list nat) : R :=
  (INR (fold_right Nat.add 0%nat xs) / INR (length xs))%R.

  (** Where the control is: in the training loops, in the [while True] that
      follows convergence, or past the end of the script. *)
Inductive phase : Type := Training | Evaluating | Exited.

Section Script.

  Variable RI : RandomImpl.
  Variable EI : EnvImpl.
  Variable TI : TorchImpl.
  (** The bound of the model on the rejection loop of [random.sample]. *)
  Variable patience : nat.
  (** The values [Network()] gives the parameters it allocates. *)
  Variable fresh : nat -> tensor TI.
  (** The state of Python's generator when the script starts. *)
  Variable seed : generator RI.

  (** [online_net = Network()], [target_net = Network()]. *)
Definition online_net : Torch.Network := Torch.Network_new 0.
Definition target_net : Torch.Network := Torch.Network_new 4.

  (** The module-level variables of the script. *)
Record Trainer : Type := mkTrainer {
    env : environment EI;
    random : generator RI;
    heap : Torch.heap TI;
    optimizer : Torch.Optimizer TI;
    eps_count : nat;
    epsilon : option R;
    replay_memory : deque experience;
    avg_window_steps : deque nat;
    t : nat;
    state : list R;
    step : nat;
    done : option bool;
    pc : phase
  }.

  (** Lines 132 to 139: the values the target network gives the new states,
      their maximum per row, and the Bellman equation. *)
Definition optimal_q_values (experiences : list experience) (v : nat -> tensor TI)
    : option (Torch.tracked (list R)) :=
  let rewards := map e2 experiences in
  let dones := map e3 experiences in
  let new_states := map e4 experiences in
  let rewards_t := Torch.as_tensor rewards in
  let dones_t := Torch.as_tensor (map float_of_bool dones) in
  let target_q_output := Torch.call TI target_net v new_states in
  target_q_values ← Torch.max_dim1 target_q_output;
  Some (Torch.t_add rewards_t
          (Torch.t_mul (Torch.t_rmul gamma (Torch.t_rsub 1 dones_t)) target_q_values)).

  (** Lines 109 to 143: the loss of a batch, as computed from the values of
      the parameters. *)
Definition loss (experiences : list experience) (v : nat -> tensor TI)
    : option (Torch.tracked R) :=
  let states := map e0 experiences in
  let actions := map e1 experiences in
  let q_values := Torch.call TI online_net v states in
  action_q_values ← Torch.gather q_values actions;
  optimal ← optimal_q_values experiences v;
  Some (Torch.smooth_l1_loss action_q_values optimal).

  (** Lines 109 to 148: one training update on a batch. *)
Definition update (experiences : list experience) (h : Torch.heap TI)
    (o : Torch.Optimizer TI) : option (Torch.heap TI * Torch.Optimizer TI) :=
  l ← loss experiences (Torch.values TI h);
  let h1 := Torch.zero_grad TI o h in
  let h2 := Torch.backward TI (fun v => Torch.value <$> loss experiences v)
                           (Torch.leaves l) h1 in
  let '(o3, h3) := Torch.optimizer_step TI o h2 in
  Some (h3, o3).

  (** Lines 106 to 148: the update happens once the memory holds a batch. *)
Definition learn (memory : deque experience) (h : Torch.heap TI)
    (o : Torch.Optimizer TI) (g : generator RI)
    : option (Torch.heap TI * Torch.Optimizer TI * generator RI) :=
  if batch_size <=? len memory then
    '(experiences, g1) ← PyRandom.sample RI patience (items memory) batch_size g;
    '(h1, o1) ← update experiences h o;
    Some (h1, o1, g1)
  else Some (h, o, g).

  (** Lines 150 to 152. *)
Definition synchronize (count : nat) (h : Torch.heap TI) : option (Torch.heap TI) :=
  if count mod 1000 =? 0
  then Torch.load_state_dict TI target_net (Torch.state_dict TI online_net h) h
  else Some h.

  (** Lines 155 to 157: the window of the last five episode lengths. *)
Definition record_duration (steps : nat) (w : deque nat) : option (deque nat) :=
  let w1 := append steps w in
  if 5 <? len w1 then snd <$> popleft w1 else Some w1.

  (** Lines 86 to 171: one pass through the body of
      [for step in itertools.count()], up to the start of the next pass. *)
Definition train_step (st : Trainer) : option Trainer :=
  let count := S (eps_count st) in
  let eps := decay epsilon_start epsilon_end epsilon_decayrate (INR count) in
  let '(u, g1) := random_random RI (random st) in
  '(action, env1) ←
    (if Rlt_dec u eps then Some (action_space_sample EI (env st))
     else a ← Torch.act TI online_net (Torch.values TI (heap st)) (state st);
          Some (a, env st));
  let '((s1, reward, term, trunc), env2) := env_step EI action env1 in
  let done := term || trunc in
  let memory := append (state st, action, reward, done, s1) (replay_memory st) in
  '(h1, o1, g2) ← learn memory (heap st) (optimizer st) g1;
  h2 ← synchronize count h1;
  if done then
    w ← record_duration (step st) (avg_window_steps st);
    let avg_steps := average (items w) in
    if Rge_dec avg_steps 499 then
      let env3 := gym_make EI (Some "human"%string) in
      let '(s, env4) := env_reset EI env3 in
      Some (mkTrainer env4 g2 h2 o1 count (Some eps) memory w (t st) s (step st)
                      (Some done) Evaluating)
    else if S (t st) <? 1000 then
      let '(s, env3) := env_reset EI env2 in
      Some (mkTrainer env3 g2 h2 o1 count (Some eps) memory w (S (t st)) s 0
                      (Some done) Training)
    else
      Some (mkTrainer env2 g2 h2 o1 count (Some eps) memory w (t st) s1 (step st)
                      (Some done) Exited)
  else
    Some (mkTrainer env2 g2 h2 o1 count (Some eps) memory (avg_window_steps st)
                    (t st) s1 (S (step st)) (Some done) Training).

  (** Lines 165 to 170: one pass through the body of [while True]. *)
Definition evaluate_step (st : Trainer) : option Trainer :=
  action ← Torch.act TI online_net (Torch.values TI (heap st)) (state st);
  let '((s1, _, term, trunc), env1) := env_step EI action (env st) in
  let done := term || trunc in
  let env2 := env_render EI env1 in
  let '(s, env3) := if done then env_reset EI env2 else (s1, env2) in
  Some (mkTrainer env3 (random st) (heap st) (optimizer st) (eps_count st)
                  (epsilon st) (replay_memory st) (avg_window_steps st) (t st) s
                  (step st) (Some done) Evaluating).

  (** One pass of whichever loop the control is in; the script that has
      ended takes no step. *)
Definition tick (st : Trainer) : option Trainer :=
  match pc st with
  | Training => train_step st
  | Evaluating => evaluate_step st
  | Exited => None
  end.

  (** [n] passes. *)
Fixpoint run (n : nat) (st : Trainer) : option Trainer :=
  match n with
  | 0 => Some st
  | S n' => st1 ← tick st; run n' st1
  end.

  (** Lines 20 to 82: the state in which the first pass starts. *)
Definition init : option Trainer :=
  let env0 := gym_make EI None in
  let h0 : Torch.heap TI := fun id => Torch.mkParam (fresh id) None in
  h1 ← Torch.load_state_dict TI target_net (Torch.state_dict TI online_net h0) h0;
  let o := Torch.Adam TI (Torch.parameters online_net) 5e-4%R in
  let '(s, env1) := env_reset EI env0 in
  Some (mkTrainer env1 seed h1 o 0 None (empty (Some 50000)) (empty None) 0 s 0
                  None Training).

  (** The values a network gives a state, with the parameters as they are
      in a state of the script. *)
Definition evaluate (net : Torch.Network) (st : Trainer) (x : list R) : R * R :=
  Torch.forward TI net (Torch.values TI (heap st)) x.

  (** *** What the properties speak of *)

  (** [max_over_actions(target.evaluate(next_state))]. *)
Definition next_best_value (v : nat -> tensor TI) (next_state : list R) : R :=
  let q := Torch.forward TI target_net v next_state in Rmax q.1 q.2.

  (** The target network holds the values of the online network, parameter
      by parameter. *)
Definition same_parameters (h : Torch.heap TI) : Prop :=
  Torch.data (h (Torch.net_0_weight target_net))
  = Torch.data (h (Torch.net_0_weight online_net)) ∧
  Torch.data (h (Torch.net_0_bias target_net))
  = Torch.data (h (Torch.net_0_bias online_net)) ∧
  Torch.data (h (Torch.net_2_weight target_net))
  = Torch.data (h (Torch.net_2_weight online_net)) ∧
  Torch.data (h (Torch.net_2_bias target_net))
  = Torch.data (h (Torch.net_2_bias online_net)).

  (** The transitions in memory carry actions of the action space, the
      window of episode lengths is unbounded, and the optimizer holds the
      parameters of the online network. *)
Definition well_formed (st : Trainer) : Prop :=
  Forall (fun e => e1 e < 2) (items (replay_memory st)) ∧
  maxlen (avg_window_steps st) = None ∧
  Torch.params (optimizer st) = Torch.parameters online_net.

  (** The environment answers [done = False] to [k] steps and [done = True]
      to the next one, whatever the actions and whether or not the action
      space was sampled before a step. *)
Fixpoint quiet_for (k : nat) (e : environment EI) : Prop :=
  ∀ (a : nat) (e' : environment EI),
    e' = e ∨ e' = (action_space_sample EI e).2 →
    let '((_, _, term, trunc), e'') := env_step EI a e' in
    match k with
    | 0 => term || trunc = true
    | S k' => term || trunc = false ∧ quiet_for k' e''
    end.

End Script.

Arguments mkTrainer {RI EI TI} _ _ _ _ _ _ _ _ _ _ _ _ _.
Arguments env {RI EI TI} _.
Arguments random {RI EI TI} _.
Arguments heap {RI EI TI} _.
Arguments optimizer {RI EI TI} _.
Arguments eps_count {RI EI TI} _.
Arguments epsilon {RI EI TI} _.
Arguments replay_memory {RI EI TI} _.
Arguments avg_window_steps {RI EI TI} _.
Arguments t {RI EI TI} _.
Arguments state {RI EI TI} _.
Arguments step {RI EI TI} _.
Arguments done {RI EI TI} _.
Arguments pc {RI EI TI} _.
Arguments evaluate {RI EI TI} _ _ _.
Arguments next_best_value {TI} _ _.
Arguments same_parameters {TI} _.
Arguments well_formed {RI EI TI} _.

End DQN.

(* ===================================================================== *)
(** ** decay in binary64 *)
(* ===================================================================== *)

Module Binary64.

Local Open Scope float_scope.

  (** [decay], lines 56 to 61, as Python computes it: every operation is
      the binary64 one, in the order of the source; what is an [int] among
      the arguments is converted by the arithmetic, exactly for the
      numbers the script passes; [np.exp], which the script does not
      define, is a variable. *)
Definition decay (np_exp : float -> float)
    (eps_start eps_end eps_decayrate current_step : float) : float :=
  eps_end + (eps_start - eps_end) * np_exp (-1 * eps_decayrate * current_step).

  (** A double of [np.exp]: the first terms of its series, exact at
      zero. *)
Definition exp_series (x : float) : float := 1 + x * (1 + x / 2).

End Binary64.

(* ===================================================================== *)
(** ** States of the script on the doubles *)
(* ===================================================================== *)

Module Scenes.
Import Doubles Deque Torch DQN.

Local Open Scope R_scope.

(** The script on the counting generator, the environment of 500 quiet
    steps and the one-number kernels, all parameters starting at 0. *)
Definition start_500 : option (Trainer counting (countdown 500) scalar) :=
  init counting (countdown 500) scalar (λ _, 0) 0%nat.

(** The same with an environment of 100 quiet steps, whose episodes stay
    below the threshold of convergence. *)
Definition start_100 : option (Trainer counting (countdown 100) scalar) :=
  init counting (countdown 100) scalar (λ _, 0) 0%nat.

(** A state of training on the environment of [horizon] quiet steps in
    which no episode has lasted longer than [horizon], at most [n] episodes
    have ended, and the step number is the count of the environment. *)
Definition calm (horizon n : nat) (st : Trainer counting (countdown horizon) scalar)
    : Prop :=
  well_formed st ∧ pc st = Training ∧
  (env st <= horizon)%nat ∧ step st = env st ∧
  Forall (λ x, (x <= horizon)%nat) (items (avg_window_steps st)) ∧
  (t st <= n)%nat.

End Scenes.

(* ===================================================================== *)
(** ** What further properties speak of *)
(* ===================================================================== *)

Module Traces.
Import DQN.

(** The transitions of a sequence follow each other: the next state of a
    transition that did not end its episode is the state of the transition
    stored right after it. *)
Definition linked (es : list experience) : Prop :=
  ∀ i a b, es !! i = Some a → es !! S i = Some b → e3 a = false → e4 a = e0 b.

End Traces.

(* ===================================================================== *)
(** ** The definitions on small inputs *)
(* ===================================================================== *)

Module Examples.
Import Deque PyRandom Torch DQN Doubles.

Local Open Scope R_scope.

Example deque_of_three_fed_five :
  items (extend [1; 2; 3; 4; 5]%nat (empty (Some 3%nat))) = [3; 4; 5]%nat.
Proof. reflexivity. Qed.

Example deque_of_none_drops_all :
  items (append 7%nat (empty (Some 0%nat))) = [].
Proof. reflexivity. Qed.

Example popleft_of_empty : popleft (empty (A:=nat) None) = None.
Proof. reflexivity. Qed.

Example window_of_five :
  record_duration 7 (Deque.mk [1; 2; 3; 4; 5]%nat None)
  = Some (Deque.mk [2; 3; 4; 5; 7]%nat None).
Proof. reflexivity. Qed.

Example setsize_of_a_batch : setsize batch_size = 277%nat.
Proof. reflexivity. Qed.

(** A population of five is copied into a pool; the counting generator
    answers 0, 1 and 2. *)
Example sample_from_a_pool :
  sample counting 32 [10; 20; 30; 40; 50]%nat 3 0%nat = Some ([10; 20; 30]%nat, 3%nat).
Proof. reflexivity. Qed.

(** Started at 4, the generator answers 4, the last position, then
    [5 mod 4 = 1] and [6 mod 3 = 0]. *)
Example sample_moves_the_last_item :
  sample counting 32 [10; 20; 30; 40; 50]%nat 3 4%nat = Some ([50; 20; 10]%nat, 7%nat).
Proof. reflexivity. Qed.

(** A population of 22 is above [setsize 3 = 21]: positions are drawn and
    rejected while already selected. *)
Example sample_by_rejection :
  sample counting 32 (seq 100 22) 3 0%nat = Some ([100; 101; 102]%nat, 3%nat).
Proof. vm_compute. reflexivity. Qed.

Example draw_rejects_selected :
  draw_fresh counting 32 22 {[ 0; 1 ]}%nat 0%nat = Some (2%nat, 3%nat).
Proof. vm_compute. reflexivity. Qed.

Example draw_gives_up :
  draw_fresh counting 2 22 {[ 0; 1 ]}%nat 0%nat = None.
Proof. vm_compute. reflexivity. Qed.

Example sample_larger_than_population :
  sample counting 32 [10; 20]%nat 3 0%nat = None.
Proof. reflexivity. Qed.

Example argmax_of_a_tie : argmax [1; 3; 3; 2] = Some 1%nat.
Proof. simpl. repeat (destruct (Rgt_dec _ _)); (reflexivity || lra). Qed.

Example argmax_of_equal_values : argmax [5; 5] = Some 0%nat.
Proof. simpl. repeat (destruct (Rgt_dec _ _)); (reflexivity || lra). Qed.

Example gather_out_of_range :
  gather (as_tensor [(1, 2)]) [2%nat] = None.
Proof. reflexivity. Qed.

Example smooth_l1_near : smooth_l1 0.5 = 0.125.
Proof.
  unfold smooth_l1. destruct (Rlt_dec _ _) as [_|Hfar]; [lra|].
  exfalso. apply Hfar. rewrite Rabs_right; lra.
Qed.

Example smooth_l1_far : smooth_l1 (-3) = 2.5.
Proof.
  unfold smooth_l1. destruct (Rlt_dec _ _) as [Hnear|_].
  - rewrite Rabs_left in Hnear; lra.
  - rewrite Rabs_left; lra.
Qed.

Example average_of_a_window : average [499; 500; 498]%nat = 499.
Proof.
  unfold average. cbn [fold_right length]. rewrite !INR_IZR_INZ.
  change (Z.of_nat (499 + (500 + (498 + 0)))) with 1497%Z.
  change (Z.of_nat 3) with 3%Z. lra.
Qed.

(** With the one-number kernels a network answers its last bias for both
    actions: a target network of bias 10 gives the next state the value
    10, and the target of a transition of reward 1 that ended the episode
    is 1. *)
Example bellman_target_of_a_last_transition :
  let v : nat → tensor scalar := λ id, if decide (id = 7%nat) then 10 else 0 in
  value <$> optimal_q_values scalar [([0; 0; 0; 0], 1%nat, 1, true, [0; 0; 0; 0])] v
  = Some [1 + 0.99 * (1 - 1) * Rmax 10 10].
Proof. reflexivity. Qed.

Example networks_of_the_script :
  parameters online_net = [0; 1; 2; 3]%nat ∧ parameters target_net = [4; 5; 6; 7]%nat.
Proof. split; reflexivity. Qed.

End Examples.

(* ===================================================================== *)
(** ** Properties of the bounded deque *)
(* ===================================================================== *)

Module DequeFacts.
Import Deque.

Section Bounded.

  Context {A : Type}.
  Implicit Types (d : deque A) (l : list A).

Lemma tail_drop l : tail l = drop 1 l.
Proof. destruct l; reflexivity. Qed.

Lemma maxlen_append x d : maxlen (append x d) = maxlen d.
Proof.
  unfold append. destruct (maxlen d) as [m|] eqn:Hm; simpl; [|done].
  destruct (m <? _); done.
Qed.

Lemma maxlen_extend l d : maxlen (extend l d) = maxlen d.
Proof.
  unfold extend. revert d. induction l as [|x l IH]; intros d; simpl; [done|].
  rewrite IH. apply maxlen_append.
Qed.

Lemma extend_snoc l x d : extend (l ++ [x]) d = append x (extend l d).
Proof. unfold extend. by rewrite fold_left_app. Qed.

  (** A deque of bound [c] that is fed [l] holds the last [c] items of what
      it held followed by [l], in the order they came. *)
Lemma items_extend (c : nat) l d :
  maxlen d = Some c → length (items d) ≤ c →
  items (extend l d) = drop (length (items d) + length l - c) (items d ++ l).
Proof.
  intros Hmax Hlen. induction l as [|x l IH] using rev_ind.
  - simpl. rewrite app_nil_r. by replace (length (items d) + 0 - c) with 0 by lia.
  - rewrite extend_snoc. unfold append.
    rewrite maxlen_extend, Hmax. simpl. rewrite IH.
    rewrite !length_app, length_drop, length_app. simpl.
    rewrite app_assoc.
    destruct (Nat.ltb_spec c
                (length (items d) + length l - (length (items d) + length l - c) + 1))
      as [Hfull|Hroom]; simpl.
    + rewrite tail_drop, <- drop_app_le by (rewrite length_app; lia).
      rewrite drop_drop. f_equal; lia.
    + replace (length (items d) + length l - c) with 0 by lia.
      replace (length (items d) + (length l + 1) - c) with 0 by lia. done.
Qed.

Lemma len_extend (c : nat) l d :
  maxlen d = Some c → len d ≤ c →
  len (extend l d) = Nat.min (len d + length l) c.
Proof.
  intros Hmax Hlen. unfold len in *.
  rewrite (items_extend c) by done. rewrite length_drop, length_app. lia.
Qed.

  (** After at least [c] appends only appended items are left. *)
Lemma items_extend_full (c k : nat) l d :
  maxlen d = Some c → len d ≤ c → length l = c + k →
  items (extend l d) = drop k l.
Proof.
  intros Hmax Hlen Hl. unfold len in *.
  rewrite (items_extend c) by done.
  rewrite drop_app_ge by lia. f_equal. lia.
Qed.

Lemma len_append_le (c : nat) x d :
  maxlen d = Some c → len d ≤ c → len (append x d) ≤ c.
Proof.
  intros Hmax Hlen.
  change (append x d) with (extend [x] d).
  rewrite (len_extend c) by done. lia.
Qed.

End Bounded.

End DequeFacts.

(* ===================================================================== *)
(** ** Properties of random.sample *)
(* ===================================================================== *)

Module SampleFacts.
Import PyRandom.

(** The first branch commutes with any relabelling of the items: it only
    moves them. *)
Lemma sample_pool_fmap (RI : RandomImpl) {A B : Type} (f : A → B)
    (todo i n : nat) (pool : list A) (g : generator RI) :
  sample_pool RI todo i n (f <$> pool) g
  = (λ rg : list A * generator RI, (f <$> rg.1, rg.2)) <$> sample_pool RI todo i n pool g.
Proof.
  revert i pool g. induction todo as [|todo IH]; intros i pool g; simpl; [done|].
  destruct (randbelow RI (n - i) g) as [j g1].
  rewrite !list_lookup_fmap.
  destruct (pool !! j) as [x|]; simpl; [|done].
  destruct (pool !! (n - i - 1)) as [moved|]; simpl; [|done].
  rewrite <- list_fmap_insert, IH.
  destruct (sample_pool RI todo (S i) n (<[j:=moved]> pool) g1) as [[rest g2]|]; done.
Qed.

Section Sample.

  Variable RI : RandomImpl.
  Variable patience : nat.

  Local Abbreviation below := (below RI).
  Local Abbreviation patient := (patient RI patience).

  Implicit Types (g : generator RI).

Lemma sample_pool_length {A : Type} todo i n (pool result : list A) g g' :
  sample_pool RI todo i n pool g = Some (result, g') → length result = todo.
Proof.
  revert i pool g result g'.
  induction todo as [|todo IH]; intros i pool g result g' H; simpl in H.
  - by simplify_eq.
  - destruct (randbelow RI (n - i) g) as [j g1].
    destruct (pool !! j) as [x|]; simpl in H; [|done].
    destruct (pool !! (n - i - 1)) as [moved|]; simpl in H; [|done].
    destruct (sample_pool RI todo (S i) n (<[j:=moved]> pool) g1)
      as [[rest g2]|] eqn:Hrest; simpl in H; [|done].
    simplify_eq. simpl. f_equal. eauto.
Qed.

  (** One round of the first branch: the chosen item leaves the live part
      of the pool, and the last live item takes its place. *)
Lemma pool_round {A : Type} (pool : list A) m j x moved :
  j ≤ m → pool !! j = Some x → pool !! m = Some moved →
  take (S m) pool ≡ₚ x :: take m (<[j:=moved]> pool).
Proof.
  intros Hj Hx Hmoved.
  rewrite (take_S_r _ _ _ Hmoved).
  destruct (decide (j = m)) as [->|Hne].
  - rewrite take_insert_ge by lia. simplify_eq.
    by rewrite Permutation_app_comm.
  - assert (Hjm : j < m) by lia.
    rewrite take_insert_lt by done.
    assert (Hq : take m pool !! j = Some x) by (by rewrite lookup_take_lt).
    assert (Hlen : j < length (take m pool)) by (by eapply lookup_lt_Some).
    rewrite insert_take_drop by done.
    rewrite <- (take_drop_middle _ _ _ Hq) at 1.
    rewrite <- !app_assoc. simpl.
    rewrite <- !Permutation_middle.
    by rewrite app_nil_r.
Qed.

  (** The items the first branch returns, with those it leaves in the live
      part of the pool, are the live part it started from. *)
Lemma sample_pool_perm {A : Type} todo i n (pool result : list A) g g' :
  below → length pool = n → todo + i ≤ n →
  sample_pool RI todo i n pool g = Some (result, g') →
  ∃ rest, take (n - i) pool ≡ₚ result ++ rest.
Proof.
  intros Hbelow. revert i pool g result g'.
  induction todo as [|todo IH]; intros i pool g result g' Hlen Hle H; simpl in H.
  - simplify_eq. eexists. simpl. reflexivity.
  - pose proof (Hbelow (n - i) g ltac:(lia)) as Hj.
    destruct (randbelow RI (n - i) g) as [j g1]. simpl in Hj.
    destruct (pool !! j) as [x|] eqn:Hx; simpl in H; [|done].
    destruct (pool !! (n - i - 1)) as [moved|] eqn:Hmoved; simpl in H; [|done].
    destruct (sample_pool RI todo (S i) n (<[j:=moved]> pool) g1)
      as [[rest g2]|] eqn:Hrest; simpl in H; [|done].
    simplify_eq.
    apply IH in Hrest as [left Hleft]; [|by rewrite length_insert|lia].
    exists left.
    replace (length pool - i) with (S (length pool - i - 1)) by lia.
    rewrite (pool_round pool _ j x moved) by (done || lia).
    replace (length pool - S i) with (length pool - i - 1) in Hleft by lia.
    rewrite Hleft. done.
Qed.

Lemma sample_pool_total {A : Type} todo i n (pool : list A) g :
  below → length pool = n → todo + i ≤ n →
  is_Some (sample_pool RI todo i n pool g).
Proof.
  intros Hbelow. revert i pool g.
  induction todo as [|todo IH]; intros i pool g Hlen Hle; simpl; [by eexists|].
  pose proof (Hbelow (n - i) g ltac:(lia)) as Hj.
  destruct (randbelow RI (n - i) g) as [j g1]. simpl in Hj.
  destruct (lookup_lt_is_Some_2 pool j ltac:(lia)) as [x ->].
  destruct (lookup_lt_is_Some_2 pool (n - i - 1) ltac:(lia)) as [moved ->].
  simpl.
  destruct (IH (S i) (<[j:=moved]> pool) g1) as [[rest g2] ->];
    [by rewrite length_insert | lia | by eexists].
Qed.

Lemma draw_fresh_spec fuel n (selected : gset nat) g j g' :
  below → 0 < n →
  draw_fresh RI fuel n selected g = Some (j, g') → (j ∉ selected) ∧ j < n.
Proof.
  intros Hbelow Hn. revert g.
  induction fuel as [|fuel IH]; intros g H; simpl in H; [done|].
  pose proof (Hbelow n g Hn) as Hj.
  destruct (randbelow RI n g) as [j1 g1]. simpl in Hj.
  destruct (decide (j1 ∈ selected)); [eauto|].
  by simplify_eq.
Qed.

Lemma sample_set_length {A : Type} todo n (population result : list A) selected g g' :
  sample_set RI patience todo n population selected g = Some (result, g') →
  length result = todo.
Proof.
  revert selected g result g'.
  induction todo as [|todo IH]; intros selected g result g' H; simpl in H.
  - by simplify_eq.
  - destruct (draw_fresh RI patience n selected g) as [[j g1]|]; simpl in H; [|done].
    destruct (population !! j) as [x|]; simpl in H; [|done].
    destruct (sample_set RI patience todo n population ({[j]} ∪ selected) g1)
      as [[rest g2]|] eqn:Hrest; simpl in H; [|done].
    simplify_eq. simpl. f_equal. eauto.
Qed.

  (** The second branch returns items at positions that are distinct and
      were not selected before. *)
Lemma sample_set_positions {A : Type} todo n (population result : list A) selected g g' :
  below → 0 < n →
  sample_set RI patience todo n population selected g = Some (result, g') →
  ∃ positions,
    NoDup positions ∧ (∀ p, p ∈ positions → p ∉ selected) ∧
    Forall2 (λ i x, population !! i = Some x) positions result.
Proof.
  intros Hbelow Hn. revert selected g result g'.
  induction todo as [|todo IH]; intros selected g result g' H; simpl in H.
  - simplify_eq. exists []. split_and!; [constructor | set_solver | constructor].
  - destruct (draw_fresh RI patience n selected g) as [[j g1]|] eqn:Hdraw;
      simpl in H; [|done].
    destruct (population !! j) as [x|] eqn:Hx; simpl in H; [|done].
    destruct (sample_set RI patience todo n population ({[j]} ∪ selected) g1)
      as [[rest g2]|] eqn:Hrest; simpl in H; [|done].
    simplify_eq.
    apply draw_fresh_spec in Hdraw as [Hfresh _]; [|done..].
    apply IH in Hrest as (positions & Hnodup & Hnew & Hall).
    exists (j :: positions). split_and!.
    + constructor; [|done]. intros Hin. apply Hnew in Hin. set_solver.
    + intros p [->|Hin]%elem_of_cons; [done|]. apply Hnew in Hin. set_solver.
    + by constructor.
Qed.

Lemma sample_set_total {A : Type} todo k n (population : list A) selected g :
  below → patient k → length population = n →
  size selected + todo ≤ k → k ≤ n →
  is_Some (sample_set RI patience todo n population selected g).
Proof.
  intros Hbelow Hpatient Hlen. revert selected g.
  induction todo as [|todo IH]; intros selected g Hsize Hk; simpl; [by eexists|].
  destruct (Hpatient n selected g) as [[j g1] Hdraw]; [lia..|].
  rewrite Hdraw. simpl.
  apply draw_fresh_spec in Hdraw as [Hfresh Hj]; [|done|lia].
  destruct (lookup_lt_is_Some_2 population j ltac:(lia)) as [x ->]. simpl.
  destruct (IH ({[j]} ∪ selected) g1) as [[rest g2] ->]; [| lia | by eexists].
  rewrite size_union by set_solver. rewrite size_singleton. lia.
Qed.

Lemma tags_of_tagged {A : Type} (population : list A) (s : nat) :
  (imap (λ i x, (s + i, x)) population).*1 = seq s (length population).
Proof.
  revert s. induction population as [|x l IH]; intros s; simpl; [done|].
  f_equal; [lia|]. rewrite <- (IH (S s)). f_equal.
  apply imap_ext. intros i y _. simpl. f_equal. lia.
Qed.

  (** Items taken from a pool of tagged items at distinct tags. *)
Lemma tagged_positions {A : Type} (population : list A) (chosen rest : list (nat * A)) :
  imap (λ i x, (i, x)) population ≡ₚ chosen ++ rest →
  NoDup chosen.*1 ∧
  Forall2 (λ i x, population !! i = Some x) chosen.*1 chosen.*2.
Proof.
  intros Hperm. split.
  - assert (Hall : NoDup (chosen ++ rest).*1).
    { rewrite <- Hperm. change (NoDup (imap (λ i x, (0 + i, x)) population).*1).
      rewrite tags_of_tagged. apply NoDup_seq. }
    rewrite fmap_app in Hall. by apply list.NoDup_app in Hall as [? _].
  - apply Forall2_fmap. apply Forall_Forall2_diag. apply list.Forall_forall.
    intros [i x] Hin. simpl.
    assert (Hin' : (i, x) ∈ imap (λ i x, (i, x)) population).
    { rewrite Hperm. set_solver. }
    apply elem_of_lookup_imap in Hin' as (i' & x' & Heq & Hlook). by simplify_eq.
Qed.

  (** [random.sample(population, k)] with [k] no larger than the population
      returns [k] items of the population, taken at distinct positions. *)
Lemma sample_valid {A : Type} (population : list A) k g :
  below → patient k → k ≤ length population →
  ∃ result g',
    sample RI patience population k g = Some (result, g') ∧
    valid_sample population k result.
Proof.
  intros Hbelow Hpatient Hk. unfold sample.
  destruct (Nat.ltb_spec (length population) k) as [|_]; [lia|].
  destruct (length population <=? setsize k).
  - set (tagged := imap (λ i x, (i, x)) population).
    assert (Htag : population = tagged.*2).
    { unfold tagged. apply list_eq. intros i.
      rewrite list_lookup_fmap, list_lookup_imap. by destruct (population !! i). }
    assert (Hlen : length tagged = length population) by apply length_imap.
    destruct (sample_pool_total k 0 (length population) population g)
      as [[result g'] Hres]; [done | done | lia |].
    exists result, g'. split; [done|].
    pose proof Hres as Hres'.
    rewrite Htag in Hres' at 2.
    rewrite sample_pool_fmap in Hres'.
    destruct (sample_pool RI k 0 (length population) tagged g)
      as [[chosen g2]|] eqn:Hchosen; simpl in Hres'; [|done].
    simplify_eq.
    split; [by eapply sample_pool_length|].
    pose proof Hchosen as Hperm.
    eapply (sample_pool_perm (A:=nat * A)) in Hperm as [rest Hperm]; [|done|done|lia].
    rewrite Nat.sub_0_r, <- Hlen, firstn_all in Hperm.
    exists chosen.*1.
    destruct (tagged_positions population chosen rest Hperm) as [Hnodup Hall].
    split; done.
  - destruct (sample_set_total k k (length population) population ∅ g)
      as [[result g'] Hres]; [done | done | done | | done |].
    { rewrite size_empty. lia. }
    exists result, g'. split; [done|].
    split; [by eapply sample_set_length|].
    destruct k as [|k].
    + simpl in Hres. simplify_eq. exists []. split; constructor.
    + eapply sample_set_positions in Hres as (positions & ? & _ & ?); [|done|lia].
      by exists positions.
Qed.

End Sample.
End SampleFacts.

(* ===================================================================== *)
(** ** The doubles meet what the properties assume *)
(* ===================================================================== *)

Module DoublesFacts.
Import PyRandom SampleFacts Doubles.

Lemma counting_below : below counting.
Proof. intros n g Hn. simpl. apply Nat.mod_upper_bound. lia. Qed.

Lemma counting_draw_fresh fuel n (selected : gset nat) (g : nat) :
  (∃ d, d < fuel ∧ (g + d) mod n ∉ selected) →
  is_Some (draw_fresh counting fuel n selected g).
Proof.
  revert g. induction fuel as [|fuel IH]; intros g (d & Hd & Hfree); [lia|].
  simpl. destruct (decide (g mod n ∈ selected)) as [Hin|]; [|by eexists].
  apply IH. destruct d as [|d].
  - by rewrite Nat.add_0_r in Hfree.
  - exists d. split; [lia|]. by replace (S g + d) with (g + S d) by lia.
Qed.

Lemma shifted_mod_inj n g d1 d2 :
  d1 < n → d2 < n → (g + d1) mod n = (g + d2) mod n → d1 = d2.
Proof.
  intros H1 H2 Heq.
  pose proof (Nat.div_mod_eq (g + d1) n) as E1.
  pose proof (Nat.div_mod_eq (g + d2) n) as E2.
  rewrite Heq in E1.
  assert ((g + d1) / n = (g + d2) / n) by nia.
  nia.
Qed.

  (** Among [size selected + 1] successive answers of the counting
      generator, one is not selected yet. *)
Lemma counting_finds_fresh n (selected : gset nat) (g : nat) :
  size selected < n → ∃ d, d < S (size selected) ∧ (g + d) mod n ∉ selected.
Proof.
  intros Hsize.
  set (answers := (λ d, (g + d) mod n) <$> seq 0 (S (size selected))).
  destruct (decide (Forall (λ a, a ∈ selected) answers)) as [Hall|Hnot].
  - exfalso.
    assert (Hnodup : NoDup answers).
    { apply NoDup_fmap_2_strong; [|apply NoDup_seq].
      intros d1 d2 [_ ?]%elem_of_seq [_ ?]%elem_of_seq. apply shifted_mod_inj; lia. }
    assert (Hsub : answers ⊆+ elements selected).
    { apply NoDup_submseteq; [done|]. intros a Ha.
      apply elem_of_elements. by eapply (proj1 (list.Forall_forall _ _) Hall). }
    apply submseteq_length in Hsub.
    unfold answers in Hsub. rewrite length_fmap, length_seq in Hsub.
    change (length (elements selected)) with (size selected) in Hsub. lia.
  - apply not_Forall_Exists in Hnot; [|apply _].
    apply list.Exists_exists in Hnot as (a & Ha & Hfree).
    apply list_elem_of_fmap in Ha as (d & -> & [_ Hd]%elem_of_seq).
    exists d. split; [lia | done].
Qed.

Lemma counting_patient k : patient counting k k.
Proof.
  intros n selected g Hn Hk. apply counting_draw_fresh.
  destruct (counting_finds_fresh n selected g Hn) as (d & Hd & Hfree).
  exists d. split; [lia | done].
Qed.

End DoublesFacts.

(* ===================================================================== *)
(** ** Properties of the torch operations *)
(* ===================================================================== *)

Module TorchFacts.
Import Torch.

(** *** argmax *)

(** The scan, started after the rows [seen] with the first greatest value
    of [seen] in hand, ends on the first greatest value of the whole row. *)
Lemma argmax_from_first (seen rest : list R) (best_i : nat) (best : R) :
  seen !! best_i = Some best →
  (∀ j y, seen !! j = Some y → (y <= best)%R) →
  (∀ j, seen !! j = Some best → best_i ≤ j) →
  ∃ m, (seen ++ rest) !! argmax_from best_i best (length seen) rest = Some m ∧
       (∀ j y, (seen ++ rest) !! j = Some y → (y <= m)%R) ∧
       (∀ j, (seen ++ rest) !! j = Some m →
             argmax_from best_i best (length seen) rest ≤ j).
Proof.
  revert seen best_i best.
  induction rest as [|x rest IH]; intros seen best_i best Hbest Hmax Hfirst; simpl.
  - rewrite app_nil_r. by exists best.
  - assert (Hlen : length (seen ++ [x]) = S (length seen))
      by (rewrite length_app; simpl; lia).
    rewrite (cons_middle x seen rest), app_assoc, <- Hlen.
    destruct (Rgt_dec x best) as [Hgt|Hle].
    + apply IH.
      * by rewrite lookup_app_r, Nat.sub_diag.
      * intros j y [Hj|[_ Hj]]%lookup_app_Some.
        -- apply Hmax in Hj. lra.
        -- apply list_lookup_singleton_Some in Hj as [_ <-]. lra.
      * intros j [Hj|[? _]]%lookup_app_Some; [|done].
        apply Hmax in Hj. lra.
    + apply IH.
      * by apply lookup_app_l_Some.
      * intros j y [Hj|[_ Hj]]%lookup_app_Some; [by eauto|].
        apply list_lookup_singleton_Some in Hj as [_ <-]. lra.
      * intros j [Hj|[? _]]%lookup_app_Some; [by eauto|].
        apply lookup_lt_Some in Hbest. lia.
Qed.

(** On a row that is not empty, [argmax] answers the first position that
    holds the greatest value. *)
Lemma argmax_first (x : R) (rest : list R) :
  ∃ a m, argmax (x :: rest) = Some a ∧
         (x :: rest) !! a = Some m ∧
         (∀ j y, (x :: rest) !! j = Some y → (y <= m)%R) ∧
         (∀ j, (x :: rest) !! j = Some m → a ≤ j).
Proof.
  destruct (argmax_from_first [x] rest 0 x) as (m & Hm & Hmax & Hfirst).
  - done.
  - intros j y Hj. apply list_lookup_singleton_Some in Hj as [_ <-]. lra.
  - intros j _. lia.
  - exists (argmax_from 0 x 1 rest), m. by split_and!.
Qed.

Lemma argmax_bound (r : list R) (a : nat) : argmax r = Some a → a < length r.
Proof.
  destruct r as [|x rest]; [done|]. intros Ha.
  destruct (argmax_first x rest) as (a' & m & Ha' & Hm & _).
  rewrite Ha in Ha'. simplify_eq. by eapply lookup_lt_Some.
Qed.

Section Kernels.

  Variable TI : TorchImpl.
  Implicit Types (h : heap TI) (net : Network) (o : Optimizer TI).

Lemma act_row net v state : act TI net v state = argmax (row (forward TI net v state)).
Proof. reflexivity. Qed.

Lemma act_valid net v state : ∃ a, act TI net v state = Some a ∧ a < 2.
Proof.
  rewrite act_row. unfold row.
  destruct (argmax_first (forward TI net v state).1 [(forward TI net v state).2])
    as (a & m & Ha & _).
  exists a. split; [done|]. by apply argmax_bound in Ha.
Qed.

(** C8. [Network.act] answers the [argmax] of the row of values the
    network gives the state, and the [argmax] of a row is the first
    position that holds the greatest value of the row: among tied greatest
    values the lowest index wins, and when the two values of a state are
    equal the action is 0. *)
Theorem act_greedy_takes_first_maximal net v state :
  (∀ (x : R) (rest : list R),
     ∃ a m, argmax (x :: rest) = Some a ∧
            (x :: rest) !! a = Some m ∧
            (∀ j y, (x :: rest) !! j = Some y → (y <= m)%R) ∧
            (∀ j, (x :: rest) !! j = Some m → a ≤ j)) ∧
  (∃ a m, act TI net v state = Some a ∧
          row (forward TI net v state) !! a = Some m ∧
          (∀ j y, row (forward TI net v state) !! j = Some y → (y <= m)%R) ∧
          (∀ j, row (forward TI net v state) !! j = Some m → a ≤ j)) ∧
  ((forward TI net v state).1 = (forward TI net v state).2 →
   act TI net v state = Some 0).
Proof.
  split_and!.
  - apply argmax_first.
  - rewrite act_row. apply argmax_first.
  - intros Htie. rewrite act_row.
    destruct (argmax_first (forward TI net v state).1 [(forward TI net v state).2])
      as (a & m & Ha & Hm & Hmax & Hfirst).
    unfold row. rewrite Ha. f_equal.
    assert (Hzero : ((forward TI net v state).1 <= m)%R) by (by apply (Hmax 0)).
    assert (Hone : ((forward TI net v state).2 <= m)%R) by (by apply (Hmax 1)).
    assert (Hmfirst : m = (forward TI net v state).1).
    { destruct a as [|[|a]]; simpl in Hm; [by simplify_eq | | done].
      simplify_eq. by rewrite Htie. }
    specialize (Hfirst 0). simpl in Hfirst. rewrite Hmfirst in Hfirst.
    specialize (Hfirst eq_refl). lia.
Qed.

(** *** max and gather on a batch *)

Lemma max_dim1_total (q : tracked (list (R * R))) :
  ∃ vs, max_dim1 q = Some (mkTracked vs (leaves q)) ∧
        vs = map (λ qi, Rmax qi.1 qi.2) (value q).
Proof.
  exists (map (λ qi, Rmax qi.1 qi.2) (value q)). split; [|done].
  unfold max_dim1.
  assert (H : mapM (λ qi : R * R, row_max (row qi)) (value q)
              = Some (map (λ qi, Rmax qi.1 qi.2) (value q))).
  { apply mapM_Some. induction (value q) as [|qi l IH]; simpl; constructor; done. }
  by rewrite H.
Qed.

Lemma gather_total (q : tracked (list (R * R))) (actions : list nat) :
  Forall (λ a, a < 2) actions →
  is_Some (gather q actions).
Proof.
  intros Hvalid. unfold gather.
  assert (H : is_Some (mapM (λ qa : R * R * nat, row qa.1 !! qa.2)
                            (zip (value q) actions))).
  { apply mapM_is_Some. apply list.Forall_forall. intros [qi a] Hin. simpl.
    apply lookup_lt_is_Some_2. simpl.
    apply elem_of_zip_r in Hin.
    by eapply (proj1 (list.Forall_forall _ _) Hvalid). }
  destruct H as [vs ->]. by eexists.
Qed.

(** *** Writes to the heap *)

Lemma zero_grad_data o h id : data (zero_grad TI o h id) = data (h id).
Proof.
  unfold zero_grad. revert h.
  induction (params o) as [|p ps IH]; intros h; simpl; [done|].
  rewrite IH. destruct (decide (p = id)) as [->|Hne].
  - by rewrite fn_lookup_insert.
  - by rewrite fn_lookup_insert_ne.
Qed.

Lemma zero_grad_other o h id : id ∉ params o → zero_grad TI o h id = h id.
Proof.
  unfold zero_grad. revert h.
  induction (params o) as [|p ps IH]; intros h Hid; simpl; [done|].
  rewrite IH by set_solver. apply fn_lookup_insert_ne. set_solver.
Qed.

Lemma zero_grad_own o h id : id ∈ params o → grad (zero_grad TI o h id) = None.
Proof.
  unfold zero_grad. revert h.
  induction (params o) as [|p ps IH]; intros h Hid; simpl;
    [by apply elem_of_nil in Hid|].
  destruct (decide (id ∈ ps)) as [Hin|Hnotin]; [by apply IH|].
  apply elem_of_cons in Hid as [->|Hid]; [|done].
  pose proof (zero_grad_other (mkOptimizer ps (lr o) (opt_state o))) as Hother.
  unfold zero_grad in Hother. simpl in Hother.
  rewrite Hother by done. by rewrite fn_lookup_insert.
Qed.

Lemma backward_fold_data loss_fn v (graph : list nat) h id :
  data (fold_left (λ acc i, <[i := accumulate TI (autograd TI loss_fn v i) (acc i)]> acc)
                  graph h id) = data (h id).
Proof.
  revert h. induction graph as [|p ps IH]; intros h; simpl; [done|].
  rewrite IH. destruct (decide (p = id)) as [->|Hne].
  - by rewrite fn_lookup_insert.
  - by rewrite fn_lookup_insert_ne.
Qed.

Lemma backward_fold_other loss_fn v (graph : list nat) h id :
  id ∉ graph →
  fold_left (λ acc i, <[i := accumulate TI (autograd TI loss_fn v i) (acc i)]> acc)
            graph h id = h id.
Proof.
  revert h. induction graph as [|p ps IH]; intros h Hid; simpl; [done|].
  rewrite IH by set_solver. apply fn_lookup_insert_ne. set_solver.
Qed.

Lemma backward_fold_reached loss_fn v (graph : list nat) h id :
  id ∈ graph → NoDup graph →
  grad (fold_left (λ acc i, <[i := accumulate TI (autograd TI loss_fn v i) (acc i)]> acc)
                  graph h id)
  = Some (match grad (h id) with
          | None => autograd TI loss_fn v id
          | Some g0 => tensor_add TI g0 (autograd TI loss_fn v id)
          end).
Proof.
  revert h. induction graph as [|p ps IH]; intros h Hid Hnodup;
    [by apply elem_of_nil in Hid|].
  apply list.NoDup_cons in Hnodup as [Hp Hps]. simpl.
  destruct (decide (id = p)) as [->|Hne].
  - rewrite backward_fold_other by done. by rewrite fn_lookup_insert.
  - apply elem_of_cons in Hid as [?|Hid]; [done|].
    rewrite IH by done. by rewrite fn_lookup_insert_ne.
Qed.

Lemma backward_data loss_fn graph h id :
  data (backward TI loss_fn graph h id) = data (h id).
Proof. apply backward_fold_data. Qed.

Lemma backward_other loss_fn graph h id :
  id ∉ graph → backward TI loss_fn graph h id = h id.
Proof.
  intros Hid. apply backward_fold_other. by rewrite elem_of_remove_dups.
Qed.

Lemma backward_reached loss_fn graph h id :
  id ∈ graph → is_Some (grad (backward TI loss_fn graph h id)).
Proof.
  intros Hid. unfold backward.
  rewrite backward_fold_reached; [by eexists | by rewrite elem_of_remove_dups |].
  apply NoDup_remove_dups.
Qed.

Lemma update_params_frame (ps : list nat) o h o' h' :
  fold_left (update_param TI) ps (o, h) = (o', h') →
  params o' = params o ∧ lr o' = lr o ∧
  ∀ id, id ∉ ps → h' id = h id.
Proof.
  revert o h. induction ps as [|p ps IH]; intros o h H; simpl in H.
  - by simplify_eq.
  - destruct (grad (h p)) as [g|] eqn:Hg.
    + destruct (adam TI (lr o) (opt_state o !! p) (data (h p)) g) as [s q] eqn:Hadam.
      apply IH in H as (Hps & Hlr & Hframe). simpl in *.
      split_and!; [done..|].
      intros id Hid. apply not_elem_of_cons in Hid as [Hne Hid].
      rewrite Hframe by done. by apply fn_lookup_insert_ne.
    + apply IH in H as (Hps & Hlr & Hframe).
      split_and!; [done..|].
      intros id Hid. apply not_elem_of_cons in Hid as [Hne Hid]. by apply Hframe.
Qed.

Lemma optimizer_step_frame o h o' h' :
  optimizer_step TI o h = (o', h') →
  params o' = params o ∧ lr o' = lr o ∧
  ∀ id, id ∉ params o → h' id = h id.
Proof. apply update_params_frame. Qed.

(** *** state_dict and load_state_dict *)

Lemma state_dict_keys net h :
  dom (state_dict TI net h)
  = list_to_set [ "net.0.weight"; "net.0.bias"; "net.2.weight"; "net.2.bias" ]%string.
Proof. unfold state_dict. by rewrite dom_list_to_map_L. Qed.

Lemma state_dict_lookup net h :
  state_dict TI net h !! "net.0.weight"%string = Some (data (h (net_0_weight net))) ∧
  state_dict TI net h !! "net.0.bias"%string = Some (data (h (net_0_bias net))) ∧
  state_dict TI net h !! "net.2.weight"%string = Some (data (h (net_2_weight net))) ∧
  state_dict TI net h !! "net.2.bias"%string = Some (data (h (net_2_bias net))).
Proof.
  unfold state_dict. cbn [named_parameters map list_to_map foldr fst snd uncurry].
  split_and!.
  - by rewrite lookup_insert_eq.
  - rewrite lookup_insert_ne by done. by rewrite lookup_insert_eq.
  - do 2 rewrite lookup_insert_ne by done. by rewrite lookup_insert_eq.
  - do 3 rewrite lookup_insert_ne by done. by rewrite lookup_insert_eq.
Qed.

Lemma copy_params_spec (nps : list (string * nat)) (sd : gmap string (tensor TI)) h :
  (∀ kp, kp ∈ nps → is_Some (sd !! kp.1)) →
  NoDup nps.*2 →
  ∃ h', copy_params TI nps sd h = Some h' ∧
        (∀ kp, kp ∈ nps →
               ∃ x, sd !! kp.1 = Some x ∧ h' kp.2 = mkParam x (grad (h kp.2))) ∧
        (∀ id, id ∉ nps.*2 → h' id = h id).
Proof.
  revert h. induction nps as [|[key p] nps IH]; intros h Hsd Hnodup.
  - exists h. split_and!; [done | | done]. intros kp Hin. by apply elem_of_nil in Hin.
  - rewrite fmap_cons in Hnodup. apply list.NoDup_cons in Hnodup as [Hp Hnodup].
    destruct (Hsd (key, p)) as [x Hx]; [by left|]. simpl in Hx.
    destruct (IH (<[p := mkParam x (grad (h p))]> h)) as (h' & Hcopy & Hown & Hother).
    { intros kp Hin. apply Hsd. by right. }
    { done. }
    exists h'. simpl. rewrite Hx. simpl. split_and!; [done| |].
    + intros kp [->|Hin]%elem_of_cons.
      * exists x. split; [done|]. simpl. rewrite Hother by done.
        by rewrite fn_lookup_insert.
      * destruct (Hown kp Hin) as (y & Hy & Hkp). exists y. split; [done|].
        rewrite Hkp. rewrite fn_lookup_insert_ne; [done|].
        intros ->. apply Hp. apply list_elem_of_fmap. by exists kp.
    + intros id Hid.
      apply not_elem_of_cons in Hid as [Hne Hid]. simpl in Hne.
      rewrite Hother by done. by apply fn_lookup_insert_ne.
Qed.

(** Loading the state of [src] into [dst] succeeds; afterwards each
    parameter of [dst] holds the values of the parameter of [src] of the
    same name, with the gradient it had, and nothing else has changed. *)
Lemma load_state_dict_copies (src dst : Network) h :
  NoDup (parameters dst) →
  ∃ h', load_state_dict TI dst (state_dict TI src h) h = Some h' ∧
        h' (net_0_weight dst)
        = mkParam (data (h (net_0_weight src))) (grad (h (net_0_weight dst))) ∧
        h' (net_0_bias dst)
        = mkParam (data (h (net_0_bias src))) (grad (h (net_0_bias dst))) ∧
        h' (net_2_weight dst)
        = mkParam (data (h (net_2_weight src))) (grad (h (net_2_weight dst))) ∧
        h' (net_2_bias dst)
        = mkParam (data (h (net_2_bias src))) (grad (h (net_2_bias dst))) ∧
        (∀ id, id ∉ parameters dst → h' id = h id).
Proof.
  intros Hnodup. unfold load_state_dict.
  rewrite state_dict_keys. rewrite decide_True by done.
  destruct (state_dict_lookup src h) as (S0 & S1 & S2 & S3).
  destruct (copy_params_spec (named_parameters dst) (state_dict TI src h) h)
    as (h' & Hcopy & Hown & Hother); [|done|].
  { intros kp Hin. unfold named_parameters in Hin.
    repeat (apply elem_of_cons in Hin as [->|Hin]; [by eexists|]).
    by apply elem_of_nil in Hin. }
  exists h'. split; [done|].
  assert (Hat : ∀ key p x, (key, p) ∈ named_parameters dst →
                          state_dict TI src h !! key = Some x →
                          h' p = mkParam x (grad (h p))).
  { intros key p x Hin Hx. destruct (Hown _ Hin) as (y & Hy & Hp). simpl in *.
    rewrite Hx in Hy. by simplify_eq. }
  split_and!; [eapply Hat; [|done]; unfold named_parameters; set_solver..|done].
Qed.

End Kernels.
End TorchFacts.

(* ===================================================================== *)
(** ** Properties of the script: the schedule and the Bellman target *)
(* ===================================================================== *)

Module ScheduleFacts.
Import DQN.

Local Open Scope R_scope.

Lemma exp_neg_lt_1 (x : R) : x < 0 → exp x < 1.
Proof. intros Hx. rewrite <- exp_0. by apply exp_increasing. Qed.

(** From the first step on, the schedule of the script is below its
    start. *)
Lemma decay_below_start (n : nat) :
  (0 < n)%nat →
  decay epsilon_start epsilon_end epsilon_decayrate (INR n) < epsilon_start.
Proof.
  intros Hn. unfold decay, epsilon_start, epsilon_end, epsilon_decayrate.
  assert (Hpos : 0 < INR n) by (by apply lt_0_INR).
  assert (Hexp : exp (-1 * 0.003 * INR n) < 1) by (apply exp_neg_lt_1; nra).
  nra.
Qed.

Lemma decay_above_end (n : nat) :
  epsilon_end < decay epsilon_start epsilon_end epsilon_decayrate (INR n).
Proof.
  unfold decay, epsilon_start, epsilon_end, epsilon_decayrate.
  pose proof (exp_pos (-1 * 0.003 * INR n)). nra.
Qed.

End ScheduleFacts.

(* ===================================================================== *)
(** ** decay at step 0, in binary64 *)
(* ===================================================================== *)

Module Binary64Facts.
Import Binary64.

Local Open Scope float_scope.

(** C5, as the code has it. [decay] is the function
    [end + (start - end) * exp(-rate * step)] of its four arguments,
    computed in binary64. At step 0 the exponent is a zero, [np.exp]
    answers 1, and the value is the rounded sum [end + (start - end)]:
    for the start 1 and the end 0.001 of the script that sum is 1, so
    [decay(1, 0.001, 0.003, 0) == 1]. *)
Theorem decay_at_step_0_gives_the_start_of_the_script (np_exp : float → float) :
  np_exp (-0) = 1 →
  (∀ s e r step, decay np_exp s e r step = e + (s - e) * np_exp (-1 * r * step)) ∧
  (∀ s e r, -1 * r * 0 = -0 → decay np_exp s e r 0 = e + (s - e) * 1) ∧
  (∀ s e, decay np_exp s e 0.003 0 = e + (s - e) * 1) ∧
  decay np_exp 1 0.001 0.003 0 = 1 ∧
  (decay np_exp 1 0.001 0.003 0 =? 1) = true.
Proof.
  intros Hzero.
  assert (Hany : ∀ s e r, -1 * r * 0 = -0 → decay np_exp s e r 0 = e + (s - e) * 1).
  { intros s e r Hstep. unfold decay. by rewrite Hstep, Hzero. }
  assert (Hscript : ∀ s e, decay np_exp s e 0.003 0 = e + (s - e) * 1).
  { intros s e. by apply Hany. }
  split_and!; [done | done | done | |].
  - rewrite Hscript. reflexivity.
  - rewrite Hscript. reflexivity.
Qed.

Lemma decay_at_step_0_gives_the_start_of_the_script_witness :
  exp_series (-0) = 1 ∧
  decay exp_series 1 0.001 0.003 0 = 1 ∧
  (decay exp_series 1 0.001 0.003 0 =? 1) = true.
Proof.
  assert (Hzero : exp_series (-0) = 1) by reflexivity.
  destruct (decay_at_step_0_gives_the_start_of_the_script exp_series Hzero)
    as (_ & _ & _ & Heq & Heqb).
  by split_and!.
Defined.

(** C5, as the claim has it, fails: the value at step 0 is not the start
    for every start and end. With the start 0.1 and the end 0.7 the sum
    [0.7 + (0.1 - 0.7)] is rounded to 0.09999999999999998, whatever
    [np.exp] is as long as it answers 1 at zero. *)
Lemma decay_at_step_0_is_not_always_the_start :
  (∀ np_exp : float → float, np_exp (-0) = 1 →
     decay np_exp 0.1 0.7 0.003 0 = 0.09999999999999998 ∧
     (decay np_exp 0.1 0.7 0.003 0 =? 0.1) = false) ∧
  exp_series (-0) = 1 ∧
  decay exp_series 0.1 0.7 0.003 0 ≠ 0.1.
Proof.
  assert (Hstep : -1 * 0.003 * 0 = -0) by reflexivity.
  split_and!.
  - intros np_exp Hzero. unfold decay. rewrite Hstep, Hzero. split; reflexivity.
  - reflexivity.
  - intros Heq.
    assert (Hb : (decay exp_series 0.1 0.7 0.003 0 =? 0.1) = true).
    { rewrite Heq. reflexivity. }
    vm_compute in Hb. discriminate Hb.
Qed.

End Binary64Facts.

Module BellmanFacts.
Import Torch TorchFacts DQN.

Local Open Scope R_scope.

Section Kernels.

  Variable TI : TorchImpl.

Lemma next_best_value_row_max v next_state :
  row_max (row (forward TI target_net v next_state)) = Some (next_best_value v next_state).
Proof. reflexivity. Qed.

  (** The columns of line 139, put together row by row. *)
Lemma bellman_rows (experiences : list experience) (v : nat → tensor TI) :
  zip_with Rplus (map e2 experiences)
    (zip_with Rmult
       (map (λ x, gamma * x) (map (λ x, 1 - x) (map float_of_bool (map e3 experiences))))
       (map (λ qi : R * R, Rmax qi.1 qi.2)
            (map (forward TI target_net v) (map e4 experiences))))
  = map (λ e, e2 e + gamma * (1 - float_of_bool (e3 e)) * next_best_value v (e4 e))
        experiences.
Proof.
  induction experiences as [|e l IH]; simpl; [done|]. by rewrite IH.
Qed.

(** C1. The target of a batch exists and has one entry per transition, and
    the entry of a transition is
    [reward + gamma * (1 - done_flag) * max_over_actions(target(next_state))],
    with [gamma = 0.99] and [done_flag] the conversion of [done], 1 for a
    transition that ended its episode and 0 for one that did not: the
    entry of a transition that did not end its episode is
    [reward + 0.99 * max_over_actions(target(next_state))], the entry of
    one that did is its reward, and so 1 for a reward of 1, whatever the
    target network says of the next state. The loss of the training update
    is the smooth L1 loss between the values of the actions taken and this
    target. *)
Theorem bellman_target (experiences : list experience) (v : nat → tensor TI) :
  gamma = 0.99 ∧
  float_of_bool false = 0 ∧ float_of_bool true = 1 ∧
  ∃ y, optimal_q_values TI experiences v = Some y ∧
       length (value y) = length experiences ∧
       (∀ i e, experiences !! i = Some e →
          let done_flag := float_of_bool (e3 e) in
          (done_flag = 0 ∨ done_flag = 1) ∧
          (done_flag = 1 ↔ e3 e = true) ∧
          value y !! i
          = Some (e2 e + gamma * (1 - done_flag) * next_best_value v (e4 e)) ∧
          (e3 e = false →
           value y !! i = Some (e2 e + 0.99 * next_best_value v (e4 e))) ∧
          (e3 e = true → value y !! i = Some (e2 e)) ∧
          (e2 e = 1 → e3 e = true → value y !! i = Some 1)) ∧
       (∀ action_q_values,
          gather (call TI online_net v (map e0 experiences)) (map e1 experiences)
          = Some action_q_values →
          loss TI experiences v = Some (smooth_l1_loss action_q_values y)).
Proof.
  split_and!; [reflexivity..|].
  destruct (max_dim1_total (call TI target_net v (map e4 experiences)))
    as (vs & Hmax & ->).
  assert (Hy0 : ∃ y, optimal_q_values TI experiences v = Some y).
  { unfold optimal_q_values. rewrite Hmax. by eexists. }
  destruct Hy0 as [y Hy0]. exists y. split; [done|].
  pose proof Hy0 as Hvalue. unfold optimal_q_values in Hvalue.
  rewrite Hmax in Hvalue. injection Hvalue as <-.
  cbn [value t_add t_mul t_rmul t_rsub as_tensor call].
  rewrite bellman_rows. split_and!.
  - by rewrite length_map.
  - intros i e He. set (done_flag := float_of_bool (e3 e)).
    assert (Hy : map (λ e, e2 e + gamma * (1 - float_of_bool (e3 e))
                                  * next_best_value v (e4 e)) experiences !! i
                 = Some (e2 e + gamma * (1 - done_flag) * next_best_value v (e4 e))).
    { change (map ?f ?l) with (f <$> l). by rewrite list_lookup_fmap, He. }
    split_and!.
    + subst done_flag. destruct (e3 e); simpl; auto.
    + subst done_flag. destruct (e3 e); simpl; split; (done || lra).
    + exact Hy.
    + intros Hdone. rewrite Hy. f_equal.
      subst done_flag. rewrite Hdone. unfold gamma. simpl. ring.
    + intros Hdone. rewrite Hy. f_equal.
      subst done_flag. rewrite Hdone. simpl. ring.
    + intros Hreward Hdone. rewrite Hy. f_equal.
      subst done_flag. rewrite Hreward, Hdone. simpl. ring.
  - intros action_q_values Hgather. unfold loss.
    rewrite Hgather. simpl. by rewrite Hy0.
Qed.
End Kernels.
End BellmanFacts.

(* ===================================================================== *)
(** ** Properties of the script: one pass of the loops *)
(* ===================================================================== *)

Module StepFacts.
Import Deque Torch TorchFacts DQN.

Section Script.

  Variable RI : RandomImpl.
  Variable EI : EnvImpl.
  Variable TI : TorchImpl.
  Variable patience : nat.

  Local Abbreviation Trainer := (Trainer RI EI TI).
  Local Abbreviation train_step := (train_step RI EI TI patience).
  Local Abbreviation evaluate_step := (evaluate_step RI EI TI).
  Local Abbreviation tick := (tick RI EI TI patience).
  Local Abbreviation run := (run RI EI TI patience).
  Local Abbreviation learn := (learn RI TI patience).
  Local Abbreviation synchronize := (synchronize TI).

  Implicit Types (st : Trainer).

  (** What one pass of the training loop does, read off its result. *)
Lemma train_step_inv st st' :
  train_step st = Some st' →
  ∃ u g1 action env1 s1 reward term trunc env2 h1,
    random_random RI (random st) = (u, g1) ∧
    ((env1 = env st ∧
      act TI online_net (values TI (heap st)) (state st) = Some action) ∨
     (action, env1) = action_space_sample EI (env st)) ∧
    env_step EI action env1 = ((s1, reward, term, trunc), env2) ∧
    eps_count st' = S (eps_count st) ∧
    epsilon st'
    = Some (decay epsilon_start epsilon_end epsilon_decayrate (INR (S (eps_count st)))) ∧
    done st' = Some (term || trunc) ∧
    replay_memory st'
    = append (state st, action, reward, term || trunc, s1) (replay_memory st) ∧
    learn (replay_memory st') (heap st) (optimizer st) g1
    = Some (h1, optimizer st', random st') ∧
    synchronize (S (eps_count st)) h1 = Some (heap st') ∧
    if term || trunc then
      record_duration (step st) (avg_window_steps st) = Some (avg_window_steps st') ∧
      (pc st' = Evaluating ↔ (average (items (avg_window_steps st')) >= 499)%R) ∧
      (pc st' ≠ Evaluating →
       if S (t st) <? 1000
       then pc st' = Training ∧ t st' = S (t st) ∧ step st' = 0 ∧
            (state st', env st') = env_reset EI env2
       else pc st' = Exited)
    else
      pc st' = Training ∧ step st' = S (step st) ∧ t st' = t st ∧
      avg_window_steps st' = avg_window_steps st ∧
      env st' = env2 ∧ state st' = s1.
Proof.
  unfold DQN.train_step. intros H.
  destruct (random_random RI (random st)) as [u g1] eqn:Hu.
  set (eps := decay _ _ _ _) in *.
  match type of H with
  | (?chosen ≫= _) = _ => destruct chosen as [[action env1]|] eqn:Hchoice
  end; simpl in H; [|done].
  destruct (env_step EI action env1) as [[[[s1 reward] term] trunc] env2] eqn:Hstep.
  match type of H with
  | (?learnt ≫= _) = _ => destruct learnt as [[[h1 o1] g2]|] eqn:Hlearn
  end; simpl in H; [|done].
  destruct (DQN.synchronize TI (S (eps_count st)) h1) as [h2|] eqn:Hsync;
    simpl in H; [|done].
  exists u, g1, action, env1, s1, reward, term, trunc, env2, h1.
  assert (Hact : (env1 = env st ∧
                  act TI online_net (values TI (heap st)) (state st) = Some action) ∨
                 (action, env1) = action_space_sample EI (env st)).
  { destruct (Rlt_dec u eps).
    - right. by simplify_eq.
    - left. destruct (act TI online_net (values TI (heap st)) (state st));
        simpl in Hchoice; by simplify_eq. }
  destruct (term || trunc) eqn:Hdone.
  - destruct (record_duration (step st) (avg_window_steps st)) as [w|] eqn:Hw;
      simpl in H; [|done].
    destruct (Rge_dec (average (items w)) 499) as [Havg|Havg].
    + destruct (env_reset EI (gym_make EI (Some "human"%string))) as [s env4].
      simplify_eq. simpl. split_and!; done.
    + destruct (S (t st) <? 1000).
      * destruct (env_reset EI env2) as [s env3].
        simplify_eq. simpl. split_and!; try done; try (split; [done | by intros ?]).
      * simplify_eq. simpl. split_and!; try done; try (split; [done | by intros ?]).
  - simplify_eq. simpl. split_and!; done.
Qed.

  (** *** The pass of the evaluation loop *)

  (** A pass of [while True] always completes; it acts greedily on the
      online network, and writes the environment, the state and [done]
      only. *)
Lemma evaluate_step_total st :
  ∃ st' action,
    evaluate_step st = Some st' ∧
    act TI online_net (values TI (heap st)) (state st) = Some action ∧
    (let '((s1, _, term, trunc), env1) := env_step EI action (env st) in
     (env st', state st')
     = if term || trunc
       then ((env_reset EI (env_render EI env1)).2, (env_reset EI (env_render EI env1)).1)
       else (env_render EI env1, s1)) ∧
    pc st' = Evaluating ∧
    heap st' = heap st ∧ optimizer st' = optimizer st ∧
    replay_memory st' = replay_memory st ∧
    eps_count st' = eps_count st ∧ epsilon st' = epsilon st ∧
    random st' = random st ∧
    avg_window_steps st' = avg_window_steps st ∧
    t st' = t st ∧ step st' = step st.
Proof.
  unfold DQN.evaluate_step.
  destruct (act_valid TI online_net (values TI (heap st)) (state st))
    as (action & Hact & _).
  rewrite Hact. simpl.
  destruct (env_step EI action (env st)) as [[[[s1 reward] term] trunc] env1] eqn:Hstep.
  destruct (term || trunc) eqn:Hdone.
  - destruct (env_reset EI (env_render EI env1)) as [s env3] eqn:Hreset.
    eexists _, action. split; [reflexivity|].
    rewrite Hstep, Hdone, Hreset. simpl. by split_and!.
  - eexists _, action. split; [reflexivity|].
    rewrite Hstep, Hdone. simpl. by split_and!.
Qed.

  (** *** What keeps the training pass going *)

Lemma loss_leaves (experiences : list experience) v l :
  loss TI experiences v = Some l →
  leaves l = parameters online_net ++ parameters target_net.
Proof.
  unfold loss, optimal_q_values, gather. intros H.
  destruct (mapM _ _) as [qs|]; simpl in H; [|done].
  destruct (max_dim1_total (call TI target_net v (map e4 experiences)))
    as (vs & Hmax & _).
  rewrite Hmax in H. simpl in H. by simplify_eq.
Qed.

Lemma loss_total (experiences : list experience) v :
  Forall (λ e, e1 e < 2) experiences → is_Some (loss TI experiences v).
Proof.
  intros Hvalid. unfold loss, optimal_q_values.
  destruct (gather_total (call TI online_net v (map e0 experiences)) (map e1 experiences))
    as [q ->].
  { by apply Forall_fmap. }
  destruct (max_dim1_total (call TI target_net v (map e4 experiences)))
    as (vs & -> & _).
  by eexists.
Qed.

Lemma update_total (experiences : list experience) h o :
  Forall (λ e, e1 e < 2) experiences → is_Some (update TI experiences h o).
Proof.
  intros Hvalid. unfold update.
  destruct (loss_total experiences (values TI h) Hvalid) as [l ->]. simpl.
  destruct (optimizer_step TI o _). by eexists.
Qed.

  (** A training update writes the values of the optimizer's parameters
      only; the parameters of both networks receive a gradient. *)
Lemma update_frame (experiences : list experience) h o h' o' :
  update TI experiences h o = Some (h', o') →
  params o' = params o ∧ lr o' = lr o ∧
  (∀ id, id ∉ params o → data (h' id) = data (h id)) ∧
  (∀ id, id ∉ params o → id ∈ parameters target_net → is_Some (grad (h' id))).
Proof.
  unfold update. intros H.
  destruct (loss TI experiences (values TI h)) as [l|] eqn:Hloss; simpl in H; [|done].
  destruct (optimizer_step TI o _) as [o3 h3] eqn:Hstep. simplify_eq.
  apply optimizer_step_frame in Hstep as (Hps & Hlr & Hframe).
  split_and!; [done..| |].
  - intros id Hid. by rewrite Hframe, backward_data, zero_grad_data.
  - intros id Hid Htarget. rewrite Hframe by done.
    apply backward_reached. rewrite (loss_leaves _ _ _ Hloss).
    apply elem_of_app. by right.
Qed.

  Hypothesis Hbelow : PyRandom.below RI.
  Hypothesis Hpatient : PyRandom.patient RI patience batch_size.
  (** [env.action_space.sample()] answers an action of the action space,
      [Discrete(2)]. *)
  Hypothesis Hactions : ∀ e, (action_space_sample EI e).1 < 2.

Lemma append_Forall {A : Type} (P : A → Prop) (x : A) (d : deque A) :
  Forall P (items d) → P x → Forall P (items (append x d)).
Proof using Type.
  intros Hd Hx.
  assert (Hgrown : Forall P (items d ++ [x])).
  { apply Forall_app. split; [done|]. by constructor. }
  unfold append. destruct (maxlen d) as [m|]; simpl; [|done].
  destruct (m <? _); simpl; [|done].
  rewrite DequeFacts.tail_drop. by apply Forall_drop.
Qed.

Lemma valid_sample_Forall {A : Type} (P : A → Prop) (population result : list A) k :
  PyRandom.valid_sample population k result →
  Forall P population → Forall P result.
Proof using Type.
  intros (_ & positions & _ & Hat) Hall.
  induction Hat as [|i x positions result Hx _ IH]; constructor; [|done].
  eapply (proj1 (list.Forall_forall _ _) Hall). by eapply list_elem_of_lookup_2.
Qed.

Lemma learn_total (memory : deque experience) h o g :
  Forall (λ e, e1 e < 2) (items memory) → is_Some (learn memory h o g).
Proof using Hbelow Hpatient.
  intros Hvalid. unfold DQN.learn.
  destruct (Nat.leb_spec batch_size (len memory)) as [Hfull|_]; [|by eexists].
  destruct (SampleFacts.sample_valid RI patience (items memory) batch_size g)
    as (experiences & g1 & -> & Hsample); [done..|].
  simpl.
  destruct (update_total experiences h o) as [[h1 o1] ->]; [|by eexists].
  by eapply valid_sample_Forall.
Qed.

  (** The update is skipped while the memory holds less than a batch, and
      otherwise runs on 32 transitions drawn from the memory at distinct
      positions; it writes the values of the optimizer's parameters only. *)
Lemma learn_frame (memory : deque experience) h o g h' o' g' :
  learn memory h o g = Some (h', o', g') →
  params o' = params o ∧
  (∀ id, id ∉ params o → data (h' id) = data (h id)) ∧
  (len memory < batch_size → h' = h ∧ o' = o ∧ g' = g).
Proof using Type.
  unfold DQN.learn. intros H.
  destruct (Nat.leb_spec batch_size (len memory)) as [Hfull|Hless].
  - destruct (PyRandom.sample _ _ _ _ _) as [[experiences g1]|]; simpl in H; [|done].
    destruct (update TI experiences h o) as [[h1 o1]|] eqn:Hupdate; simpl in H; [|done].
    simplify_eq. apply update_frame in Hupdate as (? & _ & ? & _).
    split_and!; [done..|]. lia.
  - simplify_eq. by split_and!.
Qed.

Lemma target_net_NoDup : NoDup (parameters target_net).
Proof using Type. by apply (bool_decide_unpack _). Qed.

Lemma online_net_target_net_disjoint id :
  id ∈ parameters online_net → id ∉ parameters target_net.
Proof using Type.
  unfold parameters, named_parameters. simpl.
  intros Hin Hin'.
  repeat (apply elem_of_cons in Hin as [->|Hin];
          [repeat (apply elem_of_cons in Hin' as [?|Hin']; [done|]);
           by apply elem_of_nil in Hin'|]).
  by apply elem_of_nil in Hin.
Qed.

  (** The synchronization writes the parameters of the target network
      only; when the count is a multiple of 1000, the target network then
      holds the values of the online network, parameter by parameter. *)
Lemma synchronize_spec (count : nat) h :
  ∃ h', synchronize count h = Some h' ∧
        (∀ id, id ∉ parameters target_net → h' id = h id) ∧
        (count mod 1000 ≠ 0 → h' = h) ∧
        (count mod 1000 = 0 →
         data (h' (net_0_weight target_net)) = data (h' (net_0_weight online_net)) ∧
         data (h' (net_0_bias target_net)) = data (h' (net_0_bias online_net)) ∧
         data (h' (net_2_weight target_net)) = data (h' (net_2_weight online_net)) ∧
         data (h' (net_2_bias target_net)) = data (h' (net_2_bias online_net))).
Proof using Type.
  unfold DQN.synchronize.
  destruct (Nat.eqb_spec (count mod 1000) 0) as [Hsync|Hskip].
  - destruct (load_state_dict_copies TI online_net target_net h target_net_NoDup)
      as (h' & -> & H0 & H1 & H2 & H3 & Hother).
    exists h'. split_and!; [done..|].
    intros _.
    rewrite H0, H1, H2, H3. simpl.
    rewrite !Hother; [done|..];
      apply online_net_target_net_disjoint;
      apply list_elem_of_In; simpl; tauto.
  - exists h. by split_and!.
Qed.

Lemma record_duration_spec (n : nat) (w : deque nat) :
  maxlen w = None →
  ∃ w', record_duration n w = Some w' ∧ maxlen w' = None ∧
        list.last (items w') = Some n.
Proof using Type.
  intros Hw. unfold record_duration, append, popleft, len. rewrite Hw. simpl.
  destruct (5 <? length (items w ++ [n])) eqn:Hlong.
  - destruct (items w) as [|x rest] eqn:Hitems; [done|]. simpl.
    eexists. split_and!; [done..|]. apply last_snoc.
  - eexists. split_and!; [done..|]. apply last_snoc.
Qed.

  (** A pass of the training loop completes. *)
Lemma train_step_total st : well_formed st → is_Some (train_step st).
Proof using Hbelow Hpatient Hactions.
  intros (Hmemory & Hwindow & _). unfold DQN.train_step.
  destruct (random_random RI (random st)) as [u g1].
  set (eps := decay _ _ _ _).
  assert (Hchoice : ∃ action env1,
            (if Rlt_dec u eps then Some (action_space_sample EI (env st))
             else a ← act TI online_net (values TI (heap st)) (state st);
                  Some (a, env st)) = Some (action, env1) ∧ action < 2).
  { destruct (Rlt_dec u eps).
    - destruct (action_space_sample EI (env st)) as [a e] eqn:Hsample.
      exists a, e. split; [done|].
      pose proof (Hactions (env st)) as Hlt. by rewrite Hsample in Hlt.
    - destruct (act_valid TI online_net (values TI (heap st)) (state st))
        as (a & -> & Ha). by exists a, (env st). }
  destruct Hchoice as (action & env1 & -> & Haction). simpl.
  destruct (env_step EI action env1) as [[[[s1 reward] term] trunc] env2].
  set (memory := append _ _).
  destruct (learn_total memory (heap st) (optimizer st) g1) as [[[h1 o1] g2] ->].
  { apply append_Forall; done. }
  simpl.
  destruct (synchronize_spec (S (eps_count st)) h1) as (h2 & -> & _). simpl.
  destruct (term || trunc); [|by eexists].
  destruct (record_duration_spec (step st) (avg_window_steps st) Hwindow)
    as (w & -> & _). simpl.
  destruct (Rge_dec _ _).
  - destruct (env_reset EI _). by eexists.
  - destruct (S (t st) <? 1000); [|by eexists].
    destruct (env_reset EI _). by eexists.
Qed.

Lemma train_step_well_formed st st' :
  train_step st = Some st' → well_formed st → well_formed st'.
Proof using Hactions.
  intros Hstep (Hmemory & Hwindow & Hparams).
  apply train_step_inv in Hstep
    as (u & g1 & action & env1 & s1 & reward & term & trunc & env2 & h1 &
        _ & Hact & _ & _ & _ & _ & Hmem & Hlearn & _ & Hend).
  apply learn_frame in Hlearn as (Hps & _).
  split_and!.
  - rewrite Hmem. apply append_Forall; [done|]. simpl.
    destruct Hact as [[_ Hact]|Hsample].
    + destruct (act_valid TI online_net (values TI (heap st)) (state st))
        as (a & Ha & Hlt). rewrite Hact in Ha. by simplify_eq.
    + pose proof (Hactions (env st)) as Hlt. by rewrite <- Hsample in Hlt.
  - destruct (term || trunc).
    + destruct Hend as [Hw _].
      destruct (record_duration_spec (step st) (avg_window_steps st) Hwindow)
        as (w & Hw' & Hmax & _).
      rewrite Hw in Hw'. by simplify_eq.
    + destruct Hend as (_ & _ & _ & -> & _). done.
  - by rewrite Hps.
Qed.

Lemma tick_well_formed st st' :
  tick st = Some st' → well_formed st → well_formed st'.
Proof using Hactions.
  unfold DQN.tick. destruct (pc st) eqn:Hpc; [apply train_step_well_formed| |done].
  intros Hstep (Hmemory & Hwindow & Hparams).
  destruct (evaluate_step_total st)
    as (st1 & a & Hst1 & _ & _ & _ & _ & Ho & Hm & _ & _ & _ & Hw & _).
  rewrite Hstep in Hst1. simplify_eq.
  unfold well_formed. by rewrite Ho, Hm, Hw.
Qed.

Lemma record_duration_Forall (P : nat → Prop) (n : nat) (w w' : deque nat) :
  record_duration n w = Some w' → Forall P (items w) → P n → Forall P (items w').
Proof using Type.
  unfold record_duration. intros Hw Hall Hn.
  pose proof (append_Forall P n w Hall Hn) as Happ.
  destruct (5 <? len (append n w)); [|by simplify_eq].
  unfold popleft in Hw.
  destruct (items (append n w)) as [|x rest]; simpl in Hw; [done|].
  simplify_eq. simpl. by apply list.Forall_cons in Happ as [_ ?].
Qed.

Lemma sum_le_bound (xs : list nat) (bound : nat) :
  Forall (λ x, x ≤ bound) xs → fold_right Nat.add 0 xs ≤ bound * length xs.
Proof using Type.
  induction 1 as [|x xs Hx _ IH]; simpl; lia.
Qed.

  (** The average of a window is at most the greatest of its entries. *)
Lemma average_le (xs : list nat) (bound : nat) :
  xs ≠ [] → Forall (λ x, x ≤ bound) xs → (average xs <= INR bound)%R.
Proof using Type.
  intros Hne Hall. unfold average.
  assert (Hlen : (0 < INR (length xs))%R).
  { apply lt_0_INR. destruct xs; [done | simpl; lia]. }
  apply sum_le_bound in Hall. apply le_INR in Hall. rewrite mult_INR in Hall.
  apply Rmult_le_reg_r with (INR (length xs)); [lra|].
  unfold Rdiv. rewrite Rmult_assoc, Rinv_l by lra. lra.
Qed.

  (** *** Runs *)

Lemma run_S (n : nat) st :
  run (S n) st = tick st ≫= run n.
Proof using Type. reflexivity. Qed.

  (** The evaluation loop is never left, and it writes nothing of what
      training writes. *)
Lemma evaluating_run (n : nat) st :
  pc st = Evaluating →
  ∃ st', run n st = Some st' ∧
         pc st' = Evaluating ∧
         heap st' = heap st ∧ optimizer st' = optimizer st ∧
         replay_memory st' = replay_memory st ∧
         eps_count st' = eps_count st ∧ epsilon st' = epsilon st ∧
         random st' = random st ∧
         avg_window_steps st' = avg_window_steps st.
Proof using Type.
  revert st. induction n as [|n IH]; intros st Hpc.
  - exists st. by split_and!.
  - destruct (evaluate_step_total st)
      as (st1 & a & Hst1 & _ & _ & Hpc1 & Hh & Ho & Hm & Hc & He & Hr & Hw & _).
    destruct (IH st1 Hpc1) as (st' & Hrun & ? & Hh' & Ho' & Hm' & Hc' & He' & Hr' & Hw').
    exists st'. rewrite run_S. unfold DQN.tick. rewrite Hpc, Hst1. simpl.
    split_and!; [done..| | | | | | |]; congruence.
Qed.

  (** The count of steps grows by one in every pass of the training
      loop. *)
Lemma training_run_count (n : nat) st st' :
  run n st = Some st' → pc st' = Training →
  pc st = Training ∧ eps_count st' = eps_count st + n.
Proof using Type.
  revert st. induction n as [|n IH]; intros st Hrun Hpc'; simpl in Hrun.
  - simplify_eq. split; [done | lia].
  - destruct (tick st) as [st1|] eqn:Htick; simpl in Hrun; [|done].
    destruct (IH st1 Hrun Hpc') as [Hpc1 Hcount].
    unfold DQN.tick in Htick. destruct (pc st) eqn:Hpc; [| |done].
    + split; [done|].
      apply train_step_inv in Htick
        as (? & ? & ? & ? & ? & ? & ? & ? & ? & ? & _ & _ & _ & Hc & _).
      lia.
    + destruct (evaluate_step_total st) as (st2 & a & Hst2 & _ & _ & Hpc2 & _).
      rewrite Htick in Hst2. simplify_eq. congruence.
Qed.

Lemma run_well_formed (n : nat) st st' :
  run n st = Some st' → well_formed st → well_formed st'.
Proof using Hactions.
  revert st. induction n as [|n IH]; intros st Hrun Hwf; simpl in Hrun.
  - by simplify_eq.
  - destruct (tick st) as [st1|] eqn:Htick; simpl in Hrun; [|done].
    eapply IH; [done|]. by eapply tick_well_formed.
Qed.

  (** An episode in which the environment stays quiet for [m] steps takes
      [m + 1] passes: [m] passes of training that leave the window of
      episode lengths alone, and one that ends the episode and puts its own
      step number in the window. *)
Lemma quiet_episode (m : nat) st :
  well_formed st → pc st = Training → quiet_for EI m (env st) →
  ∃ st_m st',
    run m st = Some st_m ∧
    pc st_m = Training ∧ step st_m = step st + m ∧
    eps_count st_m = eps_count st + m ∧
    avg_window_steps st_m = avg_window_steps st ∧
    tick st_m = Some st' ∧
    run (S m) st = Some st' ∧
    done st' = Some true ∧
    list.last (items (avg_window_steps st')) = Some (step st + m).
Proof using Hbelow Hpatient Hactions.
  revert st. induction m as [|m IH]; intros st Hwf Hpc Hquiet.
  - destruct (train_step_total st Hwf) as [st' Hst'].
    assert (Htick : tick st = Some st') by (unfold DQN.tick; by rewrite Hpc).
    exists st, st'. rewrite run_S, Htick, !Nat.add_0_r. simpl.
    split_and!; try done.
    + apply train_step_inv in Hst'
        as (u & g1 & action & env1 & s1 & reward & term & trunc & env2 & h1 &
            _ & Hact & Hstep & _ & _ & Hdone & _ & _ & _ & Hend).
      assert (Henv : env1 = env st ∨ env1 = (action_space_sample EI (env st)).2).
      { destruct Hact as [[-> _]|<-]; auto. }
      specialize (Hquiet action env1 Henv). rewrite Hstep in Hquiet. simpl in Hquiet.
      by rewrite Hquiet in Hdone.
    + apply train_step_inv in Hst'
        as (u & g1 & action & env1 & s1 & reward & term & trunc & env2 & h1 &
            _ & Hact & Hstep & _ & _ & _ & _ & _ & _ & Hend).
      assert (Henv : env1 = env st ∨ env1 = (action_space_sample EI (env st)).2).
      { destruct Hact as [[-> _]|<-]; auto. }
      specialize (Hquiet action env1 Henv). rewrite Hstep in Hquiet. simpl in Hquiet.
      rewrite Hquiet in Hend. destruct Hend as [Hw _].
      destruct Hwf as (_ & Hwindow & _).
      destruct (record_duration_spec (step st) (avg_window_steps st) Hwindow)
        as (w & Hw' & _ & Hlast).
      rewrite Hw in Hw'. by simplify_eq.
  - destruct (train_step_total st Hwf) as [st1 Hst1].
    pose proof (train_step_well_formed _ _ Hst1 Hwf) as Hwf1.
    pose proof Hst1 as Hinv.
    apply train_step_inv in Hinv
      as (u & g1 & action & env1 & s1 & reward & term & trunc & env2 & h1 &
          _ & Hact & Hstep & Hcount1 & _ & _ & _ & _ & _ & Hend).
    assert (Henv : env1 = env st ∨ env1 = (action_space_sample EI (env st)).2).
    { destruct Hact as [[-> _]|<-]; auto. }
    specialize (Hquiet action env1 Henv). rewrite Hstep in Hquiet.
    destruct Hquiet as [Hnot Hquiet]. rewrite Hnot in Hend.
    destruct Hend as (Hpc1 & Hstep1 & _ & Hwindow1 & Henv1 & _).
    destruct (IH st1 Hwf1 Hpc1)
      as (st_m & st' & Hrun_m & Hpc_m & Hstep_m & Hcount_m & Hwindow_m &
          Htick_m & Hrun & Hdone & Hlast).
    { by rewrite Henv1. }
    assert (Htick : tick st = Some st1) by (unfold DQN.tick; by rewrite Hpc).
    exists st_m, st'. rewrite !run_S, Htick. simpl.
    split_and!; try done; try congruence; try lia.
    rewrite Hlast, Hstep1. f_equal. lia.
Qed.

  (** *** The start of the script *)

  Variable fresh : nat → tensor TI.
  Variable seed : generator RI.

  Local Abbreviation init := (init RI EI TI fresh seed).

Lemma same_parameters_evaluate st (x : list R) :
  same_parameters (heap st) → evaluate target_net st x = evaluate online_net st x.
Proof using Type.
  intros (H0 & H1 & H2 & H3). unfold evaluate, forward, values.
  by rewrite H0, H1, H2, H3.
Qed.

Lemma init_spec :
  ∃ st0, init = Some st0 ∧
         well_formed st0 ∧ same_parameters (heap st0) ∧
         pc st0 = Training ∧ eps_count st0 = 0 ∧ step st0 = 0 ∧
         replay_memory st0 = empty (Some 50000) ∧
         env st0 = (env_reset EI (gym_make EI None)).2.
Proof using Type.
  unfold DQN.init.
  set (h0 := λ id, mkParam (fresh id) None).
  destruct (load_state_dict_copies TI online_net target_net h0 target_net_NoDup)
    as (h1 & -> & H0 & H1 & H2 & H3 & Hother).
  simpl. destruct (env_reset EI (gym_make EI None)) as [s env1].
  eexists. split; [reflexivity|]. simpl. split_and!; try done.
  unfold same_parameters. rewrite H0, H1, H2, H3. simpl.
  rewrite !Hother; [done|..];
    apply online_net_target_net_disjoint;
    apply list_elem_of_In; simpl; tauto.
Qed.

Lemma init_window st0 :
  init = Some st0 → avg_window_steps st0 = empty None ∧ t st0 = 0.
Proof using Type.
  unfold DQN.init. intros Hinit.
  destruct (load_state_dict _ _ _ _) as [h1|]; simpl in Hinit; [|done].
  destruct (env_reset EI (gym_make EI None)) as [s env1]. by simplify_eq.
Qed.

  (** Every state the script reaches is well formed. *)
Lemma reachable_well_formed (n : nat) st0 st :
  init = Some st0 → run n st0 = Some st → well_formed st.
Proof using Hactions.
  intros Hinit Hrun.
  destruct init_spec as (st0' & Hinit' & Hwf & _).
  rewrite Hinit in Hinit'. simplify_eq. by eapply run_well_formed.
Qed.

  (** In every state the script reaches, the optimizer holds the parameters
      of the online network. *)
Lemma tick_optimizer_params st st' :
  tick st = Some st' → params (optimizer st') = params (optimizer st).
Proof using Type.
  unfold DQN.tick. destruct (pc st); [| |done]; intros Htick.
  - apply train_step_inv in Htick
      as (? & ? & ? & ? & ? & ? & ? & ? & ? & ? & _ & _ & _ & _ & _ & _ & _ & Hlearn & _).
    by apply learn_frame in Hlearn as [? _].
  - destruct (evaluate_step_total st) as (st1 & a & Hst1 & _ & _ & _ & _ & Ho & _).
    rewrite Htick in Hst1. simplify_eq. by rewrite Ho.
Qed.

Lemma reachable_optimizer_params (n : nat) st0 st :
  init = Some st0 → run n st0 = Some st →
  params (optimizer st) = parameters online_net.
Proof using Type.
  intros Hinit Hrun.
  destruct init_spec as (st0' & Hinit' & (_ & _ & Hparams) & _).
  assert (st0' = st0) as -> by congruence.
  clear Hinit Hinit'. revert st0 Hrun Hparams.
  induction n as [|n IH]; intros st0 Hrun Hparams; simpl in Hrun.
  - by simplify_eq.
  - destruct (tick st0) as [st1|] eqn:Htick; simpl in Hrun; [|done].
    eapply IH; [done|]. by rewrite (tick_optimizer_params _ _ Htick).
Qed.

  (** *** The claims about the passes of the script *)

(** C4. The script starts with the target network holding, parameter by
    parameter, the values of the online network, so that both give every
    state the same values; and so it is after every pass of the training
    loop that brings the count of steps to a multiple of 1000. *)
Theorem target_is_exact_copy_after_init_and_sync :
  (∃ st0, init = Some st0 ∧
          same_parameters (heap st0) ∧
          ∀ x, evaluate target_net st0 x = evaluate online_net st0 x) ∧
  (∀ st st',
     pc st = Training → tick st = Some st' → eps_count st' mod 1000 = 0 →
     same_parameters (heap st') ∧
     ∀ x, evaluate target_net st' x = evaluate online_net st' x).
Proof using Type.
  split.
  - destruct init_spec as (st0 & Hinit & _ & Hsame & _).
    exists st0. split_and!; [done..|]. intros x. by apply same_parameters_evaluate.
  - intros st st' Hpc Htick Hcount.
    unfold DQN.tick in Htick. rewrite Hpc in Htick.
    apply train_step_inv in Htick
      as (u & g1 & action & env1 & s1 & reward & term & trunc & env2 & h1 &
          _ & _ & _ & Hc & _ & _ & _ & _ & Hsync & _).
    destruct (synchronize_spec (S (eps_count st)) h1) as (h' & Hh' & _ & _ & Hcopy).
    rewrite Hsync in Hh'. simplify_eq.
    rewrite Hc in Hcount. specialize (Hcopy Hcount).
    split; [done|]. intros x. by apply same_parameters_evaluate.
Qed.

(** C6, as the script has it. A training update writes the values of the
    online parameters only: every other parameter, those of the target
    network among them, keeps its values. The Bellman target leads back to
    the parameters of the target network and to no online parameter; the
    target network is evaluated in grad mode, so the backward pass leaves a
    gradient on each of its parameters, which the optimizer, holding the
    online parameters only, never applies. The training update is the only
    place where the online parameters change: a pass of the evaluation
    loop leaves every parameter as it was; in a pass of the training loop
    the online parameters end as the update on the sampled batch left
    them, or as they were when no batch is drawn, and the synchronization
    that may follow writes the parameters of the target network only,
    which then hold the values of the online ones. A pass that does not
    synchronize leaves the values of the target parameters as they
    were. *)
Theorem training_update_writes_online_values_only (n : nat) st0 st st' :
  init = Some st0 → run n st0 = Some st → tick st = Some st' →
  (∀ experiences h' o',
     update TI experiences (heap st) (optimizer st) = Some (h', o') →
     (∀ id, id ∉ parameters online_net → data (h' id) = data (heap st id)) ∧
     (∀ id, id ∈ parameters target_net →
            data (h' id) = data (heap st id) ∧ is_Some (grad (h' id)))) ∧
  (∀ experiences v y,
     optimal_q_values TI experiences v = Some y →
     leaves y = parameters target_net ∧
     ∀ id, id ∈ leaves y → id ∉ parameters online_net) ∧
  (pc st = Evaluating → heap st' = heap st) ∧
  (pc st = Training →
   ∃ u g1 h1,
     random_random RI (random st) = (u, g1) ∧
     learn (replay_memory st') (heap st) (optimizer st) g1
     = Some (h1, optimizer st', random st') ∧
     (if batch_size <=? len (replay_memory st')
      then ∃ experiences,
             PyRandom.sample RI patience (items (replay_memory st')) batch_size g1
             = Some (experiences, random st') ∧
             update TI experiences (heap st) (optimizer st)
             = Some (h1, optimizer st')
      else h1 = heap st) ∧
     synchronize (eps_count st') h1 = Some (heap st') ∧
     (∀ id, id ∈ parameters online_net → heap st' id = h1 id) ∧
     (∀ id, id ∉ parameters target_net → heap st' id = h1 id) ∧
     (eps_count st' mod 1000 = 0 → same_parameters (heap st'))) ∧
  (pc st = Evaluating ∨ len (replay_memory st') < batch_size →
   ∀ id, id ∈ parameters online_net → heap st' id = heap st id) ∧
  (pc st = Evaluating ∨ eps_count st' mod 1000 ≠ 0 →
   ∀ id, id ∈ parameters target_net → data (heap st' id) = data (heap st id)).
Proof using Type.
  intros Hinit Hrun Htick.
  pose proof (reachable_optimizer_params n st0 st Hinit Hrun) as Hparams.
  assert (Hstep : pc st = Training →
    ∃ u g1 h1,
      random_random RI (random st) = (u, g1) ∧
      learn (replay_memory st') (heap st) (optimizer st) g1
      = Some (h1, optimizer st', random st') ∧
      (if batch_size <=? len (replay_memory st')
       then ∃ experiences,
              PyRandom.sample RI patience (items (replay_memory st')) batch_size g1
              = Some (experiences, random st') ∧
              update TI experiences (heap st) (optimizer st)
              = Some (h1, optimizer st')
       else h1 = heap st) ∧
      synchronize (eps_count st') h1 = Some (heap st') ∧
      (∀ id, id ∈ parameters online_net → heap st' id = h1 id) ∧
      (∀ id, id ∉ parameters target_net → heap st' id = h1 id) ∧
      (eps_count st' mod 1000 = 0 → same_parameters (heap st'))).
  { intros Hpc. unfold DQN.tick in Htick. rewrite Hpc in Htick.
    apply train_step_inv in Htick
      as (u & g1 & action & env1 & s1 & reward & term & trunc & env2 & h1 &
          Hu & _ & _ & Hc & _ & _ & _ & Hlearn & Hsync & _).
    rewrite <- Hc in Hsync.
    destruct (synchronize_spec (eps_count st') h1) as (h' & Hh' & Hother & _ & Hcopy).
    rewrite Hsync in Hh'. injection Hh' as <-.
    exists u, g1, h1. split_and!; [done | done | | done | | exact Hother | exact Hcopy].
    - pose proof Hlearn as Hl. unfold DQN.learn in Hl.
      destruct (batch_size <=? len (replay_memory st')); [|by injection Hl as <- _ _].
      destruct (PyRandom.sample _ _ _ _ _) as [[experiences g2]|] eqn:Hsample;
        simpl in Hl; [|done].
      destruct (update TI experiences (heap st) (optimizer st)) as [[h2 o2]|] eqn:Hupdate;
        simpl in Hl; [|done].
      injection Hl as Hh Ho Hg. exists experiences. by rewrite <- Hh, <- Ho, <- Hg.
    - intros id Hid. apply Hother. by apply online_net_target_net_disjoint. }
  split_and!.
  - intros experiences h' o' Hupdate.
    apply update_frame in Hupdate as (_ & _ & Hdata & Hgrad).
    rewrite Hparams in Hdata, Hgrad. split; [done|].
    intros id Hid.
    assert (id ∉ parameters online_net).
    { intros Hin. by apply online_net_target_net_disjoint in Hin. }
    split; [by apply Hdata | by apply Hgrad].
  - intros experiences v y Hy. unfold optimal_q_values in Hy.
    destruct (max_dim1_total (call TI target_net v (map e4 experiences)))
      as (vs & Hmax & _).
    rewrite Hmax in Hy. simpl in Hy. simplify_eq. simpl. split; [done|].
    intros id Hid Hin. by apply online_net_target_net_disjoint in Hin.
  - intros Hpc. unfold DQN.tick in Htick. rewrite Hpc in Htick.
    destruct (evaluate_step_total st) as (st1 & a & Hst1 & _ & _ & _ & Hh & _).
    rewrite Htick in Hst1. by injection Hst1 as <-.
  - exact Hstep.
  - unfold DQN.tick in Htick. destruct (pc st) eqn:Hpc; [| |done].
    + intros [?|Hless]; [done|]. intros id Hid.
      destruct (Hstep eq_refl) as (u & g1 & h1 & _ & _ & Hwhat & _ & Honline & _).
      rewrite (Honline id Hid).
      apply Nat.leb_gt in Hless. rewrite Hless in Hwhat. by rewrite Hwhat.
    + intros _ id _.
      destruct (evaluate_step_total st) as (st1 & a & Hst1 & _ & _ & _ & Hh & _).
      rewrite Htick in Hst1. injection Hst1 as <-. by rewrite Hh.
  - unfold DQN.tick in Htick. destruct (pc st) eqn:Hpc; [| |done].
    + intros [?|Hskip]; [done|]. intros id Hid.
      apply train_step_inv in Htick
        as (u & g1 & action & env1 & s1 & reward & term & trunc & env2 & h1 &
            _ & _ & _ & Hc & _ & _ & _ & Hlearn & Hsync & _).
      apply learn_frame in Hlearn as (_ & Hdata & _).
      destruct (synchronize_spec (S (eps_count st)) h1) as (h' & Hh' & _ & Hsame & _).
      rewrite Hsync in Hh'. injection Hh' as <-.
      rewrite Hc in Hskip. rewrite (Hsame Hskip).
      apply Hdata. rewrite Hparams. intros Hin.
      by apply online_net_target_net_disjoint in Hin.
    + intros _ id _.
      destruct (evaluate_step_total st) as (st1 & a & Hst1 & _ & _ & _ & Hh & _).
      rewrite Htick in Hst1. injection Hst1 as <-. by rewrite Hh.
Qed.

(** C7. From a state of the script at the start of an episode in which
    the environment answers [done = False] to 500 steps and [done = True]
    to the next, the script makes 501 passes, after which 500 is the newest
    entry of the window of episode lengths. *)
Theorem quiet_episode_of_500_records_500 (n : nat) st0 st :
  init = Some st0 → run n st0 = Some st →
  pc st = Training → step st = 0 →
  quiet_for EI 500 (env st) →
  ∃ st', run 501 st = Some st' ∧
         done st' = Some true ∧
         list.last (items (avg_window_steps st')) = Some 500.
Proof using Hbelow Hpatient Hactions.
  intros Hinit Hrun Hpc Hstep Hquiet.
  pose proof (reachable_well_formed n st0 st Hinit Hrun) as Hwf.
  destruct (quiet_episode 500 st Hwf Hpc Hquiet)
    as (_ & st' & _ & _ & _ & _ & _ & _ & Hrun' & Hdone & Hlast).
  exists st'. rewrite Hstep in Hlast. by split_and!.
Qed.

(** C9. When a pass of the training loop ends an episode with the average
    of the window at 499 or more, the control is in the evaluation loop,
    and after any number of further passes it is still there: each of them
    is a pass of that loop, which completes and acts greedily on the online
    network, and the parameters, the optimizer, the replay memory, the
    count of steps and the window are as the training left them. *)
Theorem evaluation_is_terminal st st' (n : nat) :
  pc st = Training → tick st = Some st' →
  done st' = Some true →
  (average (items (avg_window_steps st')) >= 499)%R →
  pc st' = Evaluating ∧
  ∃ st'', run n st' = Some st'' ∧
          pc st'' = Evaluating ∧
          tick st'' = evaluate_step st'' ∧
          is_Some (tick st'') ∧
          is_Some (act TI online_net (values TI (heap st'')) (state st'')) ∧
          heap st'' = heap st' ∧ optimizer st'' = optimizer st' ∧
          replay_memory st'' = replay_memory st' ∧
          eps_count st'' = eps_count st' ∧
          avg_window_steps st'' = avg_window_steps st'.
Proof using Type.
  intros Hpc Htick Hdone Havg.
  unfold DQN.tick in Htick. rewrite Hpc in Htick.
  apply train_step_inv in Htick
    as (u & g1 & action & env1 & s1 & reward & term & trunc & env2 & h1 &
        _ & _ & _ & _ & _ & Hd & _ & _ & _ & Hend).
  rewrite Hd in Hdone. injection Hdone as Hdone. rewrite Hdone in Hend.
  destruct Hend as [_ Hconv]. apply Hconv in Havg.
  split; [done|].
  destruct (evaluating_run n st' Havg)
    as (st'' & Hrun & Hpc'' & Hh & Ho & Hm & Hc & _ & _ & Hw).
  destruct (evaluate_step_total st'') as (st3 & greedy & Hst3 & Hact & _).
  assert (Htick'' : tick st'' = evaluate_step st'').
  { unfold DQN.tick. by rewrite Hpc''. }
  exists st''. rewrite Htick'', Hst3, Hact. by split_and!.
Qed.

(** C10. The [n]-th pass of the training loop, counted from 1, uses
    [decay(1, 0.001, 0.003, n)] as its epsilon: the count of steps is
    incremented before the schedule is consulted, so the schedule is never
    asked for step 0, and the epsilon used is below the start of the
    schedule. *)
Theorem epsilon_follows_incremented_count (n : nat) st0 st st' :
  1 ≤ n →
  init = Some st0 → run (n - 1) st0 = Some st →
  pc st = Training → tick st = Some st' →
  eps_count st' = n ∧
  epsilon st' = Some (decay 1 0.001 0.003 (INR n)) ∧
  (decay 1 0.001 0.003 (INR n) < 1)%R.
Proof using Type.
  intros Hn Hinit Hrun Hpc Htick.
  destruct init_spec as (st0' & Hinit' & _ & _ & _ & Hzero & _).
  rewrite Hinit in Hinit'. simplify_eq.
  destruct (training_run_count _ _ _ Hrun Hpc) as [_ Hcount].
  unfold DQN.tick in Htick. rewrite Hpc in Htick.
  apply train_step_inv in Htick
    as (u & g1 & action & env1 & s1 & reward & term & trunc & env2 & h1 &
        _ & _ & _ & Hc & He & _).
  assert (Hsn : S (eps_count st) = n) by lia.
  rewrite Hsn in Hc, He. split_and!; [done..|].
  apply (ScheduleFacts.decay_below_start n). lia.
Qed.

(** C3. [random.sample] of [N] items from a population of at least [N]
    returns [N] items, taken at [N] distinct positions of the population,
    so that each is a member of it; and the script draws its batch of 32
    from the replay memory when the memory holds at least 32 transitions,
    and draws nothing otherwise. *)
Theorem sample_draws_distinct_members (N : nat) :
  PyRandom.patient RI patience N →
  batch_size = 32 ∧
  (∀ (A : Type) (population : list A) (g : generator RI),
     N ≤ length population →
     ∃ result g',
       PyRandom.sample RI patience population N g = Some (result, g') ∧
       length result = N ∧
       (∃ positions, NoDup positions ∧
                     Forall2 (λ i x, population !! i = Some x) positions result) ∧
       ∀ x, x ∈ result → x ∈ population) ∧
  (∀ (memory : deque experience) h o g,
     if batch_size <=? len memory
     then ∃ experiences g1,
            PyRandom.sample RI patience (items memory) batch_size g
            = Some (experiences, g1) ∧
            PyRandom.valid_sample (items memory) batch_size experiences ∧
            learn memory h o g
            = ('(h1, o1) ← update TI experiences h o; Some (h1, o1, g1))
     else learn memory h o g = Some (h, o, g)).
Proof using Hbelow Hpatient.
  intros HpatientN. split_and!.
  - reflexivity.
  - intros A population g HN.
    destruct (SampleFacts.sample_valid RI patience population N g Hbelow HpatientN HN)
      as (result & g' & Hsample & Hvalid).
    exists result, g'. split; [done|].
    pose proof Hvalid as (Hlen & positions & Hnodup & Hat).
    split_and!; [done | by exists positions |].
    apply list.Forall_forall.
    eapply valid_sample_Forall; [done|]. by apply list.Forall_forall.
  - intros memory h o g. unfold DQN.learn.
    destruct (Nat.leb_spec batch_size (len memory)) as [Hfull|Hless]; [|done].
    destruct (SampleFacts.sample_valid RI patience (items memory) batch_size g
                Hbelow Hpatient Hfull)
      as (experiences & g1 & Hsample & Hvalid).
    exists experiences, g1. rewrite Hsample. by split_and!.
Qed.

  (** The replay memory keeps the bound it was created with. *)
Lemma tick_replay_memory_bounded st st' :
  tick st = Some st' →
  maxlen (replay_memory st) = Some 50000 ∧ len (replay_memory st) ≤ 50000 →
  maxlen (replay_memory st') = Some 50000 ∧ len (replay_memory st') ≤ 50000.
Proof using Type.
  intros Htick [Hmax Hlen]. unfold DQN.tick in Htick.
  destruct (pc st) eqn:Hpc; [| |done].
  - apply train_step_inv in Htick
      as (? & ? & ? & ? & ? & ? & ? & ? & ? & ? & _ & _ & _ & _ & _ & _ & -> & _).
    split.
    + by rewrite DequeFacts.maxlen_append.
    + by apply DequeFacts.len_append_le.
  - destruct (evaluate_step_total st) as (st1 & a & Hst1 & _ & _ & _ & _ & _ & Hm & _).
    rewrite Htick in Hst1. simplify_eq. by rewrite Hm.
Qed.

Lemma reachable_replay_memory_bounded (n : nat) st0 st :
  init = Some st0 → run n st0 = Some st →
  maxlen (replay_memory st) = Some 50000 ∧ len (replay_memory st) ≤ 50000.
Proof using Type.
  intros Hinit Hrun.
  destruct init_spec as (st0' & Hinit' & _ & _ & _ & _ & _ & Hmem & _).
  assert (st0' = st0) as -> by congruence.
  assert (Hstart : maxlen (replay_memory st0) = Some 50000 ∧
                   len (replay_memory st0) ≤ 50000).
  { rewrite Hmem. unfold len. simpl. split; [done | lia]. }
  clear Hinit Hinit' Hmem. revert st0 Hrun Hstart.
  induction n as [|n IH]; intros st0 Hrun Hstart; simpl in Hrun.
  - by simplify_eq.
  - destruct (tick st0) as [st1|] eqn:Htick; simpl in Hrun; [|done].
    eapply IH; [done|]. by eapply tick_replay_memory_bounded.
Qed.

(** C2. The replay memory of the script, created with
    [deque(maxlen=50000)], never holds more than 50000 transitions; and
    once [50000 + k] transitions have been appended to it, it holds 50000
    of them: the appended ones without the [k] oldest, in their order. *)
Theorem replay_memory_keeps_most_recent
    (n : nat) st0 st (k : nat) (appended : list experience) :
  init = Some st0 → run n st0 = Some st →
  length appended = 50000 + k →
  len (replay_memory st) ≤ 50000 ∧
  len (extend appended (replay_memory st)) = 50000 ∧
  items (extend appended (replay_memory st)) = drop k appended ∧
  ∀ earlier, earlier `prefix_of` appended →
             len (extend earlier (replay_memory st)) ≤ 50000.
Proof using Type.
  intros Hinit Hrun Hlen.
  destruct (reachable_replay_memory_bounded n st0 st Hinit Hrun) as [Hmax Hbound].
  split_and!.
  - done.
  - rewrite (DequeFacts.len_extend 50000) by done. lia.
  - by apply (DequeFacts.items_extend_full 50000).
  - intros earlier _. rewrite (DequeFacts.len_extend 50000) by done. lia.
Qed.

End Script.
End StepFacts.

(* ===================================================================== *)
(** ** The script on the doubles *)
(* ===================================================================== *)

Module OnDoubles.
Import Doubles DoublesFacts Deque Torch TorchFacts DQN StepFacts Scenes.

Local Open Scope R_scope.

Lemma countdown_actions (horizon : nat) (e : environment (countdown horizon)) :
  ((action_space_sample (countdown horizon) e).1 < 2)%nat.
Proof. simpl. lia. Qed.

Lemma countdown_quiet (horizon k : nat) (e : environment (countdown horizon)) :
  (e + k)%nat = horizon → quiet_for (countdown horizon) k e.
Proof.
  revert e. induction k as [|k IH]; intros e He a e' Hfrom; simpl in *.
  - assert (e' = horizon) as -> by (destruct Hfrom; lia).
    by rewrite Nat.leb_refl.
  - assert (e' = e) as -> by (by destruct Hfrom).
    split.
    + apply Nat.leb_gt. lia.
    + apply IH. lia.
Qed.

(** A pass from a calm state is a pass of training into a calm state. *)
Lemma calm_tick (horizon n : nat) (st : Trainer counting (countdown horizon) scalar) :
  (horizon < 499)%nat → (n < 999)%nat → calm horizon n st →
  ∃ st', tick counting (countdown horizon) scalar 32 st = Some st' ∧
         calm horizon (S n) st' ∧
         eps_count st' = S (eps_count st).
Proof.
  intros Hhorizon Hn (Hwf & Hpc & Henv & Hstep & Hwindow & Ht).
  destruct (train_step_total counting (countdown horizon) scalar 32
              counting_below (counting_patient 32) (countdown_actions horizon)
              st Hwf) as [st' Hst'].
  pose proof (train_step_well_formed counting (countdown horizon) scalar 32
                (countdown_actions horizon) st st' Hst' Hwf) as Hwf'.
  exists st'. split; [unfold tick; by rewrite Hpc|].
  apply train_step_inv in Hst'
    as (u & g1 & action & env1 & s1 & reward & term & trunc & env2 & h1 &
        _ & Hact & Hmove & Hcount & _ & _ & _ & _ & _ & Hend).
  assert (env1 = env st) as ->.
  { destruct Hact as [[-> _]|Hsample]; [done|]. simpl in Hsample. by simplify_eq. }
  simpl in Hmove. injection Hmove as _ _ <- <- <-. simpl in Hend.
  split; [|done].
  destruct (Nat.leb_spec horizon (env st)) as [Hlast|Hquiet].
  - destruct Hend as (Hw & Hconv & Hnext).
    assert (Hwindow' : Forall (λ x, (x <= horizon)%nat) (items (avg_window_steps st'))).
    { eapply record_duration_Forall; [done | done | lia]. }
    assert (Hnot : pc st' ≠ Evaluating).
    { intros Hpc'. apply Hconv in Hpc'.
      destruct Hwf as (_ & Hmaxlen & _).
      destruct (record_duration_spec (step st) (avg_window_steps st) Hmaxlen)
        as (w & Hw' & _ & Hnewest).
      rewrite Hw in Hw'. injection Hw' as <-.
      assert (Hne : items (avg_window_steps st') ≠ []).
      { intros Hnil. by rewrite Hnil in Hnewest. }
      pose proof (average_le _ horizon Hne Hwindow') as Havg.
      assert (Hbound : INR horizon < 499).
      { apply lt_INR in Hhorizon. rewrite (INR_IZR_INZ 499) in Hhorizon.
        by change (Z.of_nat 499) with 499%Z in Hhorizon. }
      lra. }
    specialize (Hnext Hnot).
    destruct (Nat.ltb_spec (S (t st)) 1000) as [_|Hend]; [|lia].
    destruct Hnext as (Hpc' & Ht' & Hstep' & Hreset).
    simpl in Hreset. injection Hreset as _ Henv'.
    unfold calm. rewrite Hpc', Ht', Hstep', Henv'. split_and!; try done; lia.
  - destruct Hend as (Hpc' & Hstep' & Ht' & Hw' & Henv' & _).
    unfold calm. rewrite Hpc', Ht', Hstep', Hw', Henv'. split_and!; try done; lia.
Qed.

Lemma calm_run (horizon m n : nat) (st : Trainer counting (countdown horizon) scalar) :
  (horizon < 499)%nat → (n + m <= 999)%nat → calm horizon n st →
  ∃ st', run counting (countdown horizon) scalar 32 m st = Some st' ∧
         calm horizon (n + m) st' ∧
         eps_count st' = (eps_count st + m)%nat.
Proof.
  intros Hhorizon. revert n st. induction m as [|m IH]; intros n st Hn Hcalm.
  - exists st. rewrite !Nat.add_0_r. by split_and!.
  - destruct (calm_tick horizon n st Hhorizon ltac:(lia) Hcalm)
      as (st1 & Htick & Hcalm1 & Hcount1).
    destruct (IH (S n) st1 ltac:(lia) Hcalm1) as (st' & Hrun & Hcalm' & Hcount').
    exists st'. rewrite run_S, Htick. simpl.
    replace (n + S m)%nat with (S n + m)%nat by lia.
    split_and!; [done | done | lia].
Qed.

Lemma replay_memory_keeps_most_recent_witness :
  ∃ st0,
    start_500 = Some st0 ∧
    run counting (countdown 500) scalar 32 0 st0 = Some st0 ∧
    let appended : list experience := replicate (50000 + 3) ([], 0%nat, 0, false, []) in
    length appended = (50000 + 3)%nat ∧
    len (extend appended (replay_memory st0)) = 50000%nat ∧
    items (extend appended (replay_memory st0)) = drop 3 appended.
Proof.
  destruct (init_spec counting (countdown 500) scalar (λ _, 0) 0%nat)
    as (st0 & Hinit & _).
  exists st0. split_and!; [done | done |]. intros appended.
  assert (Hlen : length appended = (50000 + 3)%nat) by apply length_replicate.
  destruct (replay_memory_keeps_most_recent counting (countdown 500) scalar 32
              (λ _, 0) 0%nat 0 st0 st0 3 appended Hinit eq_refl Hlen)
    as (_ & Hsize & Hitems & _).
  by split_and!.
Defined.

Lemma sample_draws_distinct_members_witness :
  PyRandom.patient counting 32 32 ∧
  ∃ result g',
    PyRandom.sample counting 32 (seq 0 40) 32 0%nat = Some (result, g') ∧
    length result = 32%nat ∧
    ∀ x, x ∈ result → x ∈ seq 0 40.
Proof.
  split; [apply counting_patient|].
  destruct (sample_draws_distinct_members counting scalar 32
              counting_below (counting_patient 32) 32 (counting_patient 32))
    as (_ & Hsample & _).
  destruct (Hsample nat (seq 0 40) 0%nat) as (result & g' & Hres & Hlen & _ & Hin).
  { rewrite length_seq. lia. }
  by exists result, g'.
Defined.

Lemma target_is_exact_copy_after_init_and_sync_witness :
  ∃ st0 st st',
    start_100 = Some st0 ∧
    run counting (countdown 100) scalar 32 999 st0 = Some st ∧
    pc st = Training ∧
    tick counting (countdown 100) scalar 32 st = Some st' ∧
    eps_count st' = 1000%nat ∧
    same_parameters (heap st') ∧
    ∀ x, evaluate target_net st' x = evaluate online_net st' x.
Proof.
  destruct (init_spec counting (countdown 100) scalar (λ _, 0) 0%nat)
    as (st0 & Hinit & Hwf & _ & Hpc & Hcount0 & Hstep0 & _ & Henv).
  destruct (init_window counting (countdown 100) scalar (λ _, 0) 0%nat st0 Hinit)
    as [Hwindow0 Ht0].
  assert (Hcalm : calm 100 0 st0).
  { unfold calm. rewrite Hwindow0, Ht0, Hstep0, Henv. simpl.
    split_and!; try done; try constructor; lia. }
  destruct (calm_run 100 999 0 st0 ltac:(lia) ltac:(lia) Hcalm)
    as (st & Hrun & Hcalm' & Hcount).
  destruct Hcalm' as (Hwf' & Hpc' & _).
  destruct (train_step_total counting (countdown 100) scalar 32
              counting_below (counting_patient 32) (countdown_actions 100)
              st Hwf') as [st' Hst'].
  assert (Htick : tick counting (countdown 100) scalar 32 st = Some st').
  { unfold tick. by rewrite Hpc'. }
  pose proof (train_step_inv _ _ _ _ _ _ Hst')
    as (? & ? & ? & ? & ? & ? & ? & ? & ? & ? & _ & _ & _ & Hcount' & _).
  rewrite Hcount, Hcount0 in Hcount'. simpl in Hcount'.
  destruct (target_is_exact_copy_after_init_and_sync counting (countdown 100) scalar 32
              (λ _, 0) 0%nat) as [_ Hsync].
  destruct (Hsync st st' Hpc' Htick) as [Hsame Heval].
  { by rewrite Hcount'. }
  exists st0, st, st'. by split_and!.
Defined.

(** C6, as the claim has it, fails: the target of a batch is no constant
    of the graph, and the backward pass of the update reaches the
    parameters of the target network. *)
Lemma target_network_is_not_detached :
  let experiences : list experience := [([0; 0; 0; 0], 0%nat, 1, false, [0; 0; 0; 0])] in
  let h : Torch.heap scalar := λ id, mkParam (TI:=scalar) 0 None in
  let o := Adam scalar (parameters online_net) 5e-4 in
  ∃ y h' o',
    optimal_q_values scalar experiences (values scalar h) = Some y ∧
    leaves y = [4; 5; 6; 7]%nat ∧
    update scalar experiences h o = Some (h', o') ∧
    grad (h 4%nat) = None ∧
    is_Some (grad (h' 4%nat)).
Proof.
  intros experiences h o.
  destruct (max_dim1_total (call scalar target_net (values scalar h) (map e4 experiences)))
    as (vs & Hmax & _).
  destruct (update_total scalar experiences h o) as [[h' o'] Hupdate].
  { repeat constructor. }
  eexists _, h', o'. split_and!.
  - unfold optimal_q_values. rewrite Hmax. reflexivity.
  - reflexivity.
  - done.
  - done.
  - apply (update_frame scalar experiences h o h' o' Hupdate).
    + intros Hin. apply list_elem_of_In in Hin. simpl in Hin. lia.
    + apply list_elem_of_In. simpl. tauto.
Defined.

Lemma quiet_episode_of_500_records_500_witness :
  ∃ st0 st',
    start_500 = Some st0 ∧
    well_formed st0 ∧
    pc st0 = Training ∧ step st0 = 0%nat ∧
    quiet_for (countdown 500) 500 (env st0) ∧
    run counting (countdown 500) scalar 32 501 st0 = Some st' ∧
    done st' = Some true ∧
    list.last (items (avg_window_steps st')) = Some 500%nat.
Proof.
  destruct (init_spec counting (countdown 500) scalar (λ _, 0) 0%nat)
    as (st0 & Hinit & Hwf & _ & Hpc & _ & Hstep & _ & Henv).
  assert (Hquiet : quiet_for (countdown 500) 500 (env st0)).
  { rewrite Henv. by apply countdown_quiet. }
  destruct (quiet_episode_of_500_records_500 counting (countdown 500) scalar 32
              counting_below (counting_patient 32) (countdown_actions 500)
              (λ _, 0) 0%nat 0 st0 st0 Hinit eq_refl Hpc Hstep Hquiet) as (st' & Hrun & Hdone & Hlast).
  exists st0, st'. by split_and!.
Defined.

Lemma evaluation_is_terminal_witness :
  ∃ st0 st st' st'',
    start_500 = Some st0 ∧
    run counting (countdown 500) scalar 32 500 st0 = Some st ∧
    pc st = Training ∧
    tick counting (countdown 500) scalar 32 st = Some st' ∧
    done st' = Some true ∧
    average (items (avg_window_steps st')) >= 499 ∧
    run counting (countdown 500) scalar 32 1000 st' = Some st'' ∧
    pc st'' = Evaluating ∧
    replay_memory st'' = replay_memory st' ∧
    eps_count st'' = 501%nat.
Proof.
  destruct (init_spec counting (countdown 500) scalar (λ _, 0) 0%nat)
    as (st0 & Hinit & Hwf & _ & Hpc & Hcount0 & Hstep0 & _ & Henv).
  assert (Hwindow0 : avg_window_steps st0 = empty None).
  { unfold init in Hinit.
    destruct (load_state_dict _ _ _ _) as [h1|]; simpl in Hinit; [|done].
    by simplify_eq. }
  assert (Hquiet : quiet_for (countdown 500) 500 (env st0)).
  { rewrite Henv. by apply countdown_quiet. }
  destruct (quiet_episode counting (countdown 500) scalar 32
              counting_below (counting_patient 32) (countdown_actions 500)
              500 st0 Hwf Hpc Hquiet)
    as (st & st' & Hrun & Hpc_m & Hstep_m & Hcount_m & Hwindow_m & Htick & _ & Hdone & _).
  pose proof Htick as Hinv. unfold tick in Hinv. rewrite Hpc_m in Hinv.
  apply train_step_inv in Hinv
    as (u & g1 & action & env1 & s1 & reward & term & trunc & env2 & h1 &
        _ & _ & _ & Hcount & _ & Hd & _ & _ & _ & Hend).
  rewrite Hd in Hdone. injection Hdone as Hflag. rewrite Hflag in Hend, Hd.
  destruct Hend as [Hw _].
  rewrite Hstep_m, Hstep0, Hwindow_m, Hwindow0 in Hw.
  assert (Havg : average (items (avg_window_steps st')) >= 499).
  { change (Some (Deque.mk [500%nat] None) = Some (avg_window_steps st')) in Hw.
    injection Hw as Hw. rewrite <- Hw.
    unfold average. cbn [items fold_right length]. rewrite !INR_IZR_INZ.
    change (Z.of_nat (500 + 0)) with 500%Z. change (Z.of_nat 1) with 1%Z. lra. }
  destruct (evaluation_is_terminal counting (countdown 500) scalar 32
              st st' 1000 Hpc_m Htick Hd Havg)
    as (_ & st'' & Hrun'' & Hpc'' & _ & _ & _ & _ & _ & Hm & Hc & _).
  exists st0, st, st', st''. split_and!; try done.
  rewrite Hc, Hcount, Hcount_m, Hcount0. done.
Defined.

Lemma epsilon_follows_incremented_count_witness :
  ∃ st0 st',
    start_500 = Some st0 ∧
    run counting (countdown 500) scalar 32 (1 - 1) st0 = Some st0 ∧
    pc st0 = Training ∧
    tick counting (countdown 500) scalar 32 st0 = Some st' ∧
    eps_count st' = 1%nat ∧
    epsilon st' = Some (decay 1 0.001 0.003 (INR 1)) ∧
    decay 1 0.001 0.003 (INR 1) < 1.
Proof.
  destruct (init_spec counting (countdown 500) scalar (λ _, 0) 0%nat)
    as (st0 & Hinit & Hwf & _ & Hpc & _).
  destruct (train_step_total counting (countdown 500) scalar 32
              counting_below (counting_patient 32) (countdown_actions 500)
              st0 Hwf) as [st' Hst'].
  assert (Htick : tick counting (countdown 500) scalar 32 st0 = Some st').
  { unfold tick. by rewrite Hpc. }
  destruct (epsilon_follows_incremented_count counting (countdown 500) scalar 32
              (λ _, 0) 0%nat 1 st0 st0 st' (le_n 1) Hinit eq_refl Hpc Htick)
    as (Hcount & Heps & Hlt).
  exists st0, st'. by split_and!.
Defined.

End OnDoubles.

(* ===================================================================== *)
(** ** Invariants of the training loop *)
(* ===================================================================== *)

Module LoopFacts.
Import Deque Torch TorchFacts DQN StepFacts Traces.

Lemma linked_snoc (es : list experience) (x : experience) :
  linked es →
  (∀ e, list.last es = Some e → e3 e = false → e4 e = e0 x) →
  linked (es ++ [x]).
Proof.
  intros Hes Hlast i a b Ha Hb Hrun.
  destruct (decide (S i < length es)) as [Hin|Hout].
  - rewrite lookup_app_l in Ha by lia. rewrite lookup_app_l in Hb by lia.
    by eapply Hes.
  - assert (Hi : S i = length es).
    { apply lookup_lt_Some in Hb. rewrite length_app in Hb. simpl in Hb. lia. }
    rewrite lookup_app_l in Ha by lia.
    rewrite Hi, list_lookup_middle in Hb by done. injection Hb as <-.
    apply Hlast; [|done]. rewrite last_lookup, <- Ha. f_equal. lia.
Qed.

Lemma linked_tail (es : list experience) : linked es → linked (tail es).
Proof.
  intros Hes i a b Ha Hb. destruct es as [|e es]; [done|]. simpl in *.
  by apply (Hes (S i)).
Qed.

Lemma items_append_last {A : Type} (x : A) (d : deque A) :
  maxlen d ≠ Some 0 → list.last (items (append x d)) = Some x.
Proof.
  intros Hm. unfold append. destruct (maxlen d) as [m|]; simpl; [|apply last_snoc].
  destruct (m <? length (items d ++ [x])) eqn:Hlong; simpl; [|apply last_snoc].
  destruct (items d) as [|y rest]; simpl.
  - apply Nat.ltb_lt in Hlong. simpl in Hlong. assert (m = 0) as -> by lia. done.
  - apply last_snoc.
Qed.

Lemma linked_append (x : experience) (d : deque experience) :
  linked (items d) →
  (∀ e, list.last (items d) = Some e → e3 e = false → e4 e = e0 x) →
  linked (items (append x d)).
Proof.
  intros Hd Hlast. pose proof (linked_snoc _ x Hd Hlast) as Hgrown.
  unfold append. destruct (maxlen d) as [m|]; simpl; [|done].
  destruct (m <? _); simpl; [by apply linked_tail | done].
Qed.

Lemma average_nil : average [] = 0%R.
Proof. unfold average. simpl. lra. Qed.

Lemma sum_ge_bound (xs : list nat) (bound : nat) :
  Forall (λ x, bound ≤ x) xs → bound * length xs ≤ fold_right Nat.add 0 xs.
Proof. induction 1 as [|x xs Hx _ IH]; simpl; lia. Qed.

  (** The average of a window is at least the least of its entries. *)
Lemma average_ge (xs : list nat) (bound : nat) :
  xs ≠ [] → Forall (λ x, bound ≤ x) xs → (INR bound <= average xs)%R.
Proof.
  intros Hne Hall. unfold average.
  assert (Hlen : (0 < INR (length xs))%R).
  { apply lt_0_INR. destruct xs; [done | simpl; lia]. }
  apply sum_ge_bound in Hall. apply le_INR in Hall. rewrite mult_INR in Hall.
  apply Rmult_le_reg_r with (INR (length xs)); [lra|].
  unfold Rdiv. rewrite Rmult_assoc, Rinv_l by lra. lra.
Qed.

  (** A window whose entries are at most a bound and sum up to the bound
      times their number holds the bound only. *)
Lemma sum_tight (xs : list nat) (bound : nat) :
  Forall (λ x, x ≤ bound) xs → bound * length xs ≤ fold_right Nat.add 0 xs →
  Forall (λ x, x = bound) xs.
Proof.
  induction 1 as [|x xs Hx Hxs IH]; intros Hsum; [constructor|].
  pose proof (sum_le_bound xs bound Hxs) as Hle.
  cbn [length fold_right] in Hsum. rewrite Nat.mul_succ_r in Hsum.
  constructor; [lia|]. apply IH. lia.
Qed.

Lemma average_singleton (k : nat) : average [k] = INR k.
Proof. unfold average. simpl. rewrite Nat.add_0_r. lra. Qed.

(** What the window holds after an episode length was recorded. *)
Lemma record_duration_items (n : nat) (w : deque nat) :
  maxlen w = None → len w ≤ 5 →
  ∃ w', record_duration n w = Some w' ∧ maxlen w' = None ∧
        items w' = drop (len w + 1 - 5) (items w ++ [n]) ∧
        len w' = Nat.min (S (len w)) 5.
Proof.
  intros Hw Hlen. unfold record_duration, len in *.
  assert (Happ : append n w = mk (items w ++ [n]) None).
  { unfold append. by rewrite Hw. }
  rewrite Happ. cbn [items]. rewrite length_app. cbn [length].
  destruct (Nat.ltb_spec 5 (length (items w) + 1)) as [Hlong|Hshort].
  - unfold popleft. cbn [items maxlen].
    destruct (items w) as [|x rest] eqn:Hitems; [cbn [length] in Hlong; lia|].
    assert (Hr : length rest = 4) by (cbn [length] in Hlen, Hlong; lia).
    exists (mk (rest ++ [n]) None). cbn [length]. rewrite Hr.
    split_and!; [done | done | done |].
    cbn [items]. rewrite length_app, Hr. reflexivity.
  - exists (mk (items w ++ [n]) None). split_and!; [done | done | |]; cbn [items].
    + replace (length (items w) + 1 - 5) with 0 by lia. done.
    + rewrite length_app. cbn [length]. lia.
Qed.

Section Script.

  Variable RI : RandomImpl.
  Variable EI : EnvImpl.
  Variable TI : TorchImpl.
  Variable patience : nat.

  Local Abbreviation Trainer := (Trainer RI EI TI).
  Local Abbreviation train_step := (train_step RI EI TI patience).
  Local Abbreviation evaluate_step := (evaluate_step RI EI TI).
  Local Abbreviation tick := (tick RI EI TI patience).
  Local Abbreviation run := (run RI EI TI patience).

  Implicit Types (st : Trainer).

Lemma tick_cases st st' :
  tick st = Some st' →
  (pc st = Training ∧ train_step st = Some st') ∨
  (pc st = Evaluating ∧ evaluate_step st = Some st').
Proof. unfold DQN.tick. destruct (pc st); intros H; [by left | by right | done]. Qed.

Lemma evaluate_step_inv st st' :
  evaluate_step st = Some st' →
  pc st' = Evaluating ∧
  heap st' = heap st ∧ optimizer st' = optimizer st ∧
  replay_memory st' = replay_memory st ∧ eps_count st' = eps_count st ∧
  avg_window_steps st' = avg_window_steps st ∧ t st' = t st.
Proof.
  intros Hst.
  destruct (evaluate_step_total _ _ _ st)
    as (st1 & a & Hst1 & _ & _ & Hpc & Hh & Ho & Hm & Hc & _ & _ & Hw & Ht & _).
  rewrite Hst in Hst1. injection Hst1 as <-. by split_and!.
Qed.

Lemma tick_training st st' :
  tick st = Some st' → pc st' = Training →
  pc st = Training ∧ train_step st = Some st'.
Proof.
  intros Htick Hpc'. destruct (tick_cases _ _ Htick) as [?|[_ Hst]]; [done|].
  apply evaluate_step_inv in Hst as (Hpc & _). by rewrite Hpc' in Hpc.
Qed.

Lemma run_add (a b : nat) st : run (a + b) st = run a st ≫= run b.
Proof.
  revert st. induction a as [|a IH]; intros st; simpl; [done|].
  destruct (tick st) as [st1|]; simpl; [apply IH | done].
Qed.

Lemma run_snoc (n : nat) st : run (S n) st = run n st ≫= tick.
Proof.
  replace (S n) with (n + 1) by lia. rewrite run_add.
  destruct (run n st) as [st1|]; simpl; [|done].
  by destruct (tick st1).
Qed.

Lemma run_invariant (P : Trainer → Prop) :
  (∀ st st', P st → tick st = Some st' → P st') →
  ∀ n st st', P st → run n st = Some st' → P st'.
Proof.
  intros Hstep n. induction n as [|n IH]; intros st st' HP Hrun; simpl in Hrun.
  - by simplify_eq.
  - destruct (tick st) as [st1|] eqn:Htick; simpl in Hrun; [|done].
    eapply IH; [|done]. by eapply Hstep.
Qed.

  (** What a pass of the training loop chooses, and what it leaves when it
      ends the training loop. *)
Lemma train_step_choice st st' :
  train_step st = Some st' →
  ∃ u g1 action env1 s1 reward term trunc env2,
    random_random RI (random st) = (u, g1) ∧
    (if Rlt_dec u (decay epsilon_start epsilon_end epsilon_decayrate
                         (INR (S (eps_count st))))
     then (action, env1) = action_space_sample EI (env st)
     else env1 = env st ∧
          act TI online_net (values TI (heap st)) (state st) = Some action) ∧
    env_step EI action env1 = ((s1, reward, term, trunc), env2) ∧
    replay_memory st'
    = append (state st, action, reward, term || trunc, s1) (replay_memory st) ∧
    done st' = Some (term || trunc) ∧
    (pc st' ≠ Training →
     term || trunc = true ∧ t st' = t st ∧ step st' = step st) ∧
    (pc st' = Evaluating →
     (state st', env st') = env_reset EI (gym_make EI (Some "human"%string))).
Proof.
  unfold DQN.train_step. intros H.
  destruct (random_random RI (random st)) as [u g1] eqn:Hu.
  set (eps := decay _ _ _ _) in *.
  match type of H with
  | (?chosen ≫= _) = _ => destruct chosen as [[action env1]|] eqn:Hchoice
  end; simpl in H; [|done].
  destruct (env_step EI action env1) as [[[[s1 reward] term] trunc] env2] eqn:Hstep.
  match type of H with
  | (?learnt ≫= _) = _ => destruct learnt as [[[h1 o1] g2]|] eqn:Hlearn
  end; simpl in H; [|done].
  destruct (DQN.synchronize TI (S (eps_count st)) h1) as [h2|] eqn:Hsync;
    simpl in H; [|done].
  exists u, g1, action, env1, s1, reward, term, trunc, env2.
  assert (Hact : if Rlt_dec u eps
                 then (action, env1) = action_space_sample EI (env st)
                 else env1 = env st ∧
                      act TI online_net (values TI (heap st)) (state st) = Some action).
  { destruct (Rlt_dec u eps).
    - by simplify_eq.
    - destruct (act TI online_net (values TI (heap st)) (state st));
        simpl in Hchoice; by simplify_eq. }
  destruct (term || trunc) eqn:Hdone.
  - destruct (record_duration (step st) (avg_window_steps st)) as [w|] eqn:Hw;
      simpl in H; [|done].
    destruct (Rge_dec (average (items w)) 499) as [Havg|Havg].
    + destruct (env_reset EI (gym_make EI (Some "human"%string))) as [s env4].
      simplify_eq. simpl. split_and!; done.
    + destruct (S (t st) <? 1000).
      * destruct (env_reset EI env2) as [s env3].
        simplify_eq. simpl. split_and!; done.
      * simplify_eq. simpl. split_and!; done.
  - simplify_eq. simpl. split_and!; done.
Qed.

  (** *** The replay memory and the count of passes *)

Lemma tick_memory_count st st' :
  tick st = Some st' →
  maxlen (replay_memory st) = Some 50000 ∧
  len (replay_memory st) = Nat.min (eps_count st) 50000 →
  maxlen (replay_memory st') = Some 50000 ∧
  len (replay_memory st') = Nat.min (eps_count st') 50000.
Proof.
  intros Htick [Hmax Hlen].
  destruct (tick_cases _ _ Htick) as [[Hpc Hst]|[Hpc Hst]].
  - apply train_step_inv in Hst
      as (? & ? & ? & ? & ? & ? & ? & ? & ? & ? & _ & _ & _ & -> & _ & _ & -> & _).
    split; [by rewrite DequeFacts.maxlen_append|].
    set (new := (_, _, _, _, _)).
    change (append new (replay_memory st)) with (extend [new] (replay_memory st)).
    rewrite (DequeFacts.len_extend 50000); [|done|lia]. cbn [length]. lia.
  - apply evaluate_step_inv in Hst as (_ & _ & _ & Hm & Hc & _). by rewrite Hm, Hc.
Qed.

Lemma tick_count_le st st' :
  tick st = Some st' → eps_count st' ≤ S (eps_count st).
Proof.
  intros Htick.
  destruct (tick_cases _ _ Htick) as [[Hpc Hst]|[Hpc Hst]].
  - apply train_step_inv in Hst
      as (? & ? & ? & ? & ? & ? & ? & ? & ? & ? & _ & _ & _ & -> & _). lia.
  - apply evaluate_step_inv in Hst as (_ & _ & _ & _ & Hc & _). lia.
Qed.

Lemma run_count_le (n : nat) st st' :
  run n st = Some st' → eps_count st' ≤ eps_count st + n.
Proof.
  revert st. induction n as [|n IH]; intros st Hrun; simpl in Hrun.
  - simplify_eq. lia.
  - destruct (tick st) as [st1|] eqn:Htick; simpl in Hrun; [|done].
    apply IH in Hrun. apply tick_count_le in Htick. lia.
Qed.

  (** *** The transitions in memory *)

Lemma tick_linked st st' :
  tick st = Some st' →
  maxlen (replay_memory st) = Some 50000 →
  linked (items (replay_memory st)) ∧
  (pc st = Training →
   ∀ e, list.last (items (replay_memory st)) = Some e → e3 e = false →
        e4 e = state st) →
  linked (items (replay_memory st')) ∧
  (pc st' = Training →
   ∀ e, list.last (items (replay_memory st')) = Some e → e3 e = false →
        e4 e = state st').
Proof.
  intros Htick Hmax [Hlinked Hnewest].
  destruct (tick_cases _ _ Htick) as [[Hpc Hst]|[Hpc Hst]].
  - apply train_step_inv in Hst
      as (u & g1 & action & env1 & s1 & reward & term & trunc & env2 & h1 &
          _ & _ & _ & _ & _ & _ & -> & _ & _ & Hend).
    split.
    + apply linked_append; [done|]. intros e He Hrun. simpl. by apply Hnewest.
    + intros Hpc' e He Hrun.
      rewrite items_append_last in He by (by rewrite Hmax).
      injection He as <-. unfold e3 in Hrun. simpl in Hrun. rewrite Hrun in Hend.
      by destruct Hend as (_ & _ & _ & _ & _ & ->).
  - apply evaluate_step_inv in Hst as (Hpc' & _ & _ & Hm & _).
    rewrite Hm. split; [done|]. intros Hpc''. by rewrite Hpc' in Hpc''.
Qed.

  (** *** The window of episode lengths *)

  (** The episodes counted by a state: [t] counts the episodes that ended
      before the current one, and the episode that ended the training loop
      is not counted by [t]. *)
Lemma tick_window st st' :
  tick st = Some st' →
  maxlen (avg_window_steps st) = None ∧ t st < 1000 ∧
  len (avg_window_steps st)
  = Nat.min (match pc st with Training => t st | _ => S (t st) end) 5 →
  maxlen (avg_window_steps st') = None ∧ t st' < 1000 ∧
  len (avg_window_steps st')
  = Nat.min (match pc st' with Training => t st' | _ => S (t st') end) 5.
Proof.
  intros Htick (Hmax & Ht & Hlen).
  destruct (tick_cases _ _ Htick) as [[Hpc Hst]|[Hpc Hst]].
  - rewrite Hpc in Hlen. pose proof Hst as Hst0.
    apply train_step_inv in Hst
      as (u & g1 & action & env1 & s1 & reward & term & trunc & env2 & h1 &
          _ & _ & _ & _ & _ & _ & _ & _ & _ & Hend).
    destruct (term || trunc).
    + destruct Hend as (Hw & Hconv & Hnext).
      destruct (record_duration_items (step st) (avg_window_steps st) Hmax)
        as (w & Hw' & Hmax' & _ & Hlen'); [lia|].
      rewrite Hw in Hw'. injection Hw' as <-.
      split; [done|]. rewrite Hlen', Hlen.
      assert (Hphase : pc st' = Evaluating ∨ pc st' ≠ Evaluating).
      { destruct (pc st'); [right | left | right]; done. }
      destruct Hphase as [Heval|Hnot].
      * rewrite Heval.
        destruct (train_step_choice _ _ Hst0)
          as (? & ? & ? & ? & ? & ? & ? & ? & ? & _ & _ & _ & _ & _ & Hkeep & _).
        destruct Hkeep as (_ & -> & _); [by rewrite Heval|]. split; lia.
      * specialize (Hnext Hnot).
        destruct (Nat.ltb_spec (S (t st)) 1000) as [Hmore|Hlast].
        -- destruct Hnext as (-> & -> & _). split; lia.
        -- rewrite Hnext.
           destruct (train_step_choice _ _ Hst0)
             as (? & ? & ? & ? & ? & ? & ? & ? & ? & _ & _ & _ & _ & _ & Hkeep & _).
           destruct Hkeep as (_ & -> & _); [by rewrite Hnext|]. split; lia.
    + destruct Hend as (-> & _ & -> & -> & _). by rewrite Hlen.
  - apply evaluate_step_inv in Hst as (Hpc' & _ & _ & _ & _ & Hw & Ht').
    rewrite Hpc in Hlen. rewrite Hpc', Hw, Ht'. split_and!; [exact Hmax | exact Ht | exact Hlen].
Qed.


  (** The target parameters keep their values over passes of training that
      bring the count of steps to no multiple of 1000. *)
Lemma run_target_frozen (r : nat) st_a st :
  params (optimizer st_a) = parameters online_net →
  run r st_a = Some st → pc st = Training →
  (∀ j, 0 < j ≤ r → (eps_count st_a + j) mod 1000 ≠ 0) →
  ∀ id, id ∈ parameters target_net → data (heap st id) = data (heap st_a id).
Proof.
  revert st_a. induction r as [|r IH]; intros st_a Hparams Hrun Hpc Hcount id Hid;
    simpl in Hrun.
  - by simplify_eq.
  - destruct (tick st_a) as [st1|] eqn:Htick; simpl in Hrun; [|done].
    destruct (training_run_count _ _ _ _ _ _ _ Hrun Hpc) as [Hpc1 _].
    destruct (tick_training _ _ Htick Hpc1) as [Hpca Hst].
    pose proof (tick_optimizer_params _ _ _ _ _ _ Htick) as Hparams1.
    apply train_step_inv in Hst
      as (u & g1 & action & env1 & s1 & reward & term & trunc & env2 & h1 &
          _ & _ & _ & Hc & _ & _ & _ & Hlearn & Hsync & _).
    rewrite (IH st1); [| congruence | done | done | | done].
    + destruct (learn_frame _ _ _ _ _ _ _ _ _ _ Hlearn) as (_ & Hdata & _).
      destruct (synchronize_spec TI (S (eps_count st_a)) h1)
        as (h2 & Hsync' & _ & Hsame & _).
      rewrite Hsync in Hsync'. injection Hsync' as <-.
      rewrite Hsame.
      * apply Hdata. rewrite Hparams. intros Hin.
        by apply online_net_target_net_disjoint in Hin.
      * replace (S (eps_count st_a)) with (eps_count st_a + 1) by lia.
        apply Hcount. lia.
    + intros j Hj. rewrite Hc.
      replace (S (eps_count st_a) + j) with (eps_count st_a + S j) by lia.
      apply Hcount. lia.
Qed.

  Variable fresh : nat → tensor TI.
  Variable seed : generator RI.

  Local Abbreviation init := (init RI EI TI fresh seed).

Lemma reachable_memory_count (n : nat) st0 st :
  init = Some st0 → run n st0 = Some st →
  maxlen (replay_memory st) = Some 50000 ∧
  len (replay_memory st) = Nat.min (eps_count st) 50000 ∧
  eps_count st ≤ n.
Proof.
  intros Hinit Hrun.
  destruct (init_spec RI EI TI fresh seed)
    as (st0' & Hinit' & _ & _ & _ & Hzero & _ & Hmem & _).
  assert (st0' = st0) as -> by congruence.
  assert (Hstart : maxlen (replay_memory st0) = Some 50000 ∧
                   len (replay_memory st0) = Nat.min (eps_count st0) 50000).
  { rewrite Hmem, Hzero. split; [reflexivity|]. symmetry. apply Nat.min_0_l. }
  destruct (run_invariant _ (λ a b HP Ht, tick_memory_count a b Ht HP) n st0 st Hstart Hrun)
    as [Hmax Hlen].
  pose proof (run_count_le _ _ _ Hrun) as Hle.
  split_and!; [done | done | lia].
Qed.

Lemma reachable_window (n : nat) st0 st :
  init = Some st0 → run n st0 = Some st →
  maxlen (avg_window_steps st) = None ∧ t st < 1000 ∧
  len (avg_window_steps st)
  = Nat.min (match pc st with Training => t st | _ => S (t st) end) 5.
Proof.
  intros Hinit Hrun.
  destruct (init_spec RI EI TI fresh seed) as (st0' & Hinit' & _ & _ & Hpc & _).
  assert (st0' = st0) as -> by congruence.
  destruct (init_window RI EI TI fresh seed st0 Hinit) as [Hw Ht].
  eapply (run_invariant _ (λ a b HP Ht, tick_window a b Ht HP)); [|done].
  rewrite Hpc, Hw, Ht. split_and!; [done | lia | done].
Qed.

(** X4. Lines 86 and 101. In every state the script reaches, the replay
    memory holds one transition for each pass of the training loop made so
    far, up to its bound of 50000; the count of steps is the number of
    passes of training, never reset between episodes. *)
Theorem replay_memory_holds_one_transition_per_pass (n : nat) st0 st :
  init = Some st0 → run n st0 = Some st →
  len (replay_memory st) = Nat.min (eps_count st) 50000 ∧
  eps_count st ≤ n ∧
  (pc st = Training → eps_count st = n).
Proof.
  intros Hinit Hrun.
  destruct (reachable_memory_count n st0 st Hinit Hrun) as (_ & Hlen & Hle).
  split_and!; [done | done |]. intros Hpc.
  destruct (training_run_count _ _ _ _ _ _ _ Hrun Hpc) as [_ Hcount].
  destruct (init_spec RI EI TI fresh seed) as (st0' & Hinit' & _ & _ & _ & Hzero & _).
  assert (st0' = st0) as -> by congruence. lia.
Qed.

(** X5. Lines 90 to 101. In every state the script reaches, every stored
    transition carries an action of CartPole, 0 or 1, whether it was
    sampled from the action space (whose samples are assumed to be 0 or 1)
    or chosen by the online network. *)
Theorem stored_actions_are_actions_of_the_environment (n : nat) st0 st :
  (∀ e, (action_space_sample EI e).1 < 2) →
  init = Some st0 → run n st0 = Some st →
  ∀ e, e ∈ items (replay_memory st) → e1 e = 0 ∨ e1 e = 1.
Proof.
  intros Hactions Hinit Hrun e He.
  destruct (reachable_well_formed RI EI TI patience Hactions fresh seed n st0 st
              Hinit Hrun) as (Hmemory & _).
  rewrite list.Forall_forall in Hmemory. specialize (Hmemory e He). lia.
Qed.

(** X6. Lines 100 to 102. In every state the script reaches, the transitions
    in the replay memory follow each other: the next state of a stored
    transition that did not end its episode is the state of the transition
    stored after it, and the next state of the newest one is the state the
    next pass of training starts from. *)
Theorem stored_transitions_are_linked (n : nat) st0 st :
  init = Some st0 → run n st0 = Some st →
  linked (items (replay_memory st)) ∧
  (pc st = Training →
   ∀ e, list.last (items (replay_memory st)) = Some e → e3 e = false →
        e4 e = state st).
Proof.
  intros Hinit Hrun.
  destruct (init_spec RI EI TI fresh seed)
    as (st0' & Hinit' & _ & _ & _ & _ & _ & Hmem & _).
  assert (st0' = st0) as -> by congruence.
  pose (P := λ st : Trainer,
          (maxlen (replay_memory st) = Some 50000 ∧ len (replay_memory st) ≤ 50000) ∧
          (linked (items (replay_memory st)) ∧
           (pc st = Training →
            ∀ e, list.last (items (replay_memory st)) = Some e → e3 e = false →
                 e4 e = state st))).
  assert (Hstep : ∀ st1 st2, P st1 → tick st1 = Some st2 → P st2).
  { intros st1 st2 [Hbound Hlinked] Htick. split.
    - by eapply tick_replay_memory_bounded.
    - eapply tick_linked; [done | apply Hbound | done]. }
  assert (Hstart : P st0).
  { unfold P. rewrite Hmem. unfold len. cbn [items maxlen empty length].
    split_and!; [done | lia | by intros i a b Ha | by intros _ e He]. }
  apply (run_invariant P Hstep n st0 st Hstart Hrun).
Qed.

(** X7. Lines 155 to 157. In a state of training the script reaches, the
    window holds one length for each episode that has ended, five at most;
    the pass that ends an episode records its step number and keeps the
    five most recent lengths, the others leave the window as it is. *)
Theorem window_keeps_the_last_five (n : nat) st0 st st' :
  init = Some st0 → run n st0 = Some st →
  pc st = Training → tick st = Some st' →
  len (avg_window_steps st) = Nat.min (t st) 5 ∧
  (done st' = Some true →
   items (avg_window_steps st')
   = drop (len (avg_window_steps st) + 1 - 5) (items (avg_window_steps st) ++ [step st]) ∧
   len (avg_window_steps st') = Nat.min (S (t st)) 5) ∧
  (done st' = Some false → avg_window_steps st' = avg_window_steps st).
Proof.
  intros Hinit Hrun Hpc Htick.
  destruct (reachable_window n st0 st Hinit Hrun) as (Hmax & _ & Hlen).
  rewrite Hpc in Hlen.
  destruct (tick_cases _ _ Htick) as [[_ Hst]|[Hpc' _]]; [|by rewrite Hpc in Hpc'].
  apply train_step_inv in Hst
    as (u & g1 & action & env1 & s1 & reward & term & trunc & env2 & h1 &
        _ & _ & _ & _ & _ & Hdone & _ & _ & _ & Hend).
  split; [done|]. rewrite Hdone. split; intros [= Hd]; rewrite Hd in Hend.
  - destruct Hend as (Hw & _).
    destruct (record_duration_items (step st) (avg_window_steps st) Hmax)
      as (w & Hw' & _ & Hitems & Hlen'); [lia|].
    rewrite Hw in Hw'. injection Hw' as <-. split; [done|]. rewrite Hlen', Hlen. lia.
  - by destruct Hend as (_ & _ & _ & -> & _).
Qed.

(** X8. Lines 81 and 154 to 171. The training loop is left without
    evaluation exactly by the pass that ends the 1000th episode with the
    average of the window below 499; the script has then ended, and the
    episode number never goes beyond 999. *)
Theorem training_ends_with_the_1000th_episode (n : nat) st0 st st' :
  init = Some st0 → run n st0 = Some st → tick st = Some st' →
  t st' < 1000 ∧
  (pc st' = Exited ↔
   pc st = Training ∧ done st' = Some true ∧ t st = 999 ∧
   ¬ (average (items (avg_window_steps st')) >= 499)%R) ∧
  (pc st' = Exited → tick st' = None).
Proof.
  intros Hinit Hrun Htick.
  destruct (reachable_window n st0 st Hinit Hrun) as (_ & Ht & _).
  assert (Hrun' : run (S n) st0 = Some st').
  { rewrite run_snoc, Hrun. done. }
  destruct (reachable_window (S n) st0 st' Hinit Hrun') as (_ & Ht' & _).
  split_and!; [done | | intros Hpc'; unfold DQN.tick; by rewrite Hpc'].
  destruct (tick_cases _ _ Htick) as [[Hpc Hst]|[Hpc Hst]].
  - apply train_step_inv in Hst
      as (u & g1 & action & env1 & s1 & reward & term & trunc & env2 & h1 &
          _ & _ & _ & _ & _ & Hdone & _ & _ & _ & Hend).
    rewrite Hdone. destruct (term || trunc).
    + destruct Hend as (_ & Hconv & Hnext). split.
      * intros Hpc'.
        assert (Hnot : pc st' ≠ Evaluating) by (by rewrite Hpc').
        specialize (Hnext Hnot).
        destruct (Nat.ltb_spec (S (t st)) 1000) as [Hmore|Hlast].
        -- destruct Hnext as [Hpc'' _]. rewrite Hpc' in Hpc''. discriminate Hpc''.
        -- split_and!; [exact Hpc | reflexivity | lia |].
           intros Havg. apply Hnot. apply Hconv. exact Havg.
      * intros (_ & _ & Hlast & Havg).
        assert (Hnot : pc st' ≠ Evaluating).
        { intros Heval. apply Havg. apply Hconv. exact Heval. }
        specialize (Hnext Hnot). rewrite Hlast in Hnext. exact Hnext.
    + destruct Hend as (Hpc' & _). rewrite Hpc'. split; [discriminate|].
      intros (_ & Hd & _). discriminate Hd.
  - apply evaluate_step_inv in Hst as (Hpc' & _).
    rewrite Hpc', Hpc. split; [discriminate|]. intros (Hd & _). discriminate Hd.
Qed.

(** X9. Lines 104 to 152. The first 31 passes learn nothing: as long as the
    replay memory holds fewer than 32 transitions no batch is sampled, and
    the parameters of both networks, their gradients and the optimizer
    are as the initialization left them. *)
Theorem nothing_is_learnt_before_the_32nd_pass (n : nat) st0 st :
  init = Some st0 → run n st0 = Some st → n < 32 →
  heap st = heap st0 ∧ optimizer st = optimizer st0 ∧
  len (replay_memory st) < batch_size.
Proof.
  intros Hinit. revert st. induction n as [|n IH]; intros st Hrun Hn.
  - simpl in Hrun. injection Hrun as <-.
    destruct (reachable_memory_count 0 st0 st0 Hinit eq_refl) as (_ & Hlen & Hle).
    split_and!; [done | done |]. unfold batch_size. lia.
  - rewrite run_snoc in Hrun.
    destruct (run n st0) as [st1|] eqn:Hrun1; simpl in Hrun; [|done].
    destruct (IH st1 eq_refl ltac:(lia)) as (Hheap & Hopt & _).
    assert (Hrun' : run (S n) st0 = Some st) by (by rewrite run_snoc, Hrun1).
    destruct (reachable_memory_count (S n) st0 st Hinit Hrun') as (_ & Hlen & Hle).
    assert (Hshort : len (replay_memory st) < batch_size) by (unfold batch_size; lia).
    destruct (reachable_memory_count n st0 st1 Hinit Hrun1) as (_ & _ & Hle1).
    destruct (tick_cases _ _ Hrun) as [[Hpc Hst]|[Hpc Hst]].
    + apply train_step_inv in Hst
        as (u & g1 & action & env1 & s1 & reward & term & trunc & env2 & h1 &
            _ & _ & _ & _ & _ & _ & _ & Hlearn & Hsync & _).
      destruct (learn_frame _ _ _ _ _ _ _ _ _ _ Hlearn) as (_ & _ & Hsame).
      destruct (Hsame Hshort) as (-> & Ho & _).
      destruct (synchronize_spec TI (S (eps_count st1)) (heap st1))
        as (h2 & Hsync' & _ & Hkeep & _).
      rewrite Hsync in Hsync'. injection Hsync' as <-.
      rewrite Hkeep, Ho; [by split_and!|].
      rewrite Nat.mod_small by lia. lia.
    + apply evaluate_step_inv in Hst as (_ & Hh & Ho & _).
      rewrite Hh, Ho. by split_and!.
Qed.

(** X10. Lines 66 to 69 and 132 to 152. In a state of training the script
    reaches, the target network holds the parameters the online network
    had when the count of steps was last a multiple of 1000 (at the start,
    for the first 999 passes): it gives every state the values the online
    network gave it then. *)
Theorem target_holds_the_last_snapshot (q r : nat) st0 st_a st :
  init = Some st0 → run (1000 * q) st0 = Some st_a →
  run r st_a = Some st → r < 1000 → pc st = Training →
  same_parameters (heap st_a) ∧
  (∀ id, id ∈ parameters target_net → data (heap st id) = data (heap st_a id)) ∧
  ∀ x, evaluate target_net st x = evaluate online_net st_a x.
Proof.
  intros Hinit Hrun_a Hrun Hr Hpc.
  destruct (training_run_count _ _ _ _ _ _ _ Hrun Hpc) as [Hpca _].
  destruct (training_run_count _ _ _ _ _ _ _ Hrun_a Hpca) as [_ Hcount].
  destruct (init_spec RI EI TI fresh seed)
    as (st0' & Hinit' & _ & Hsame0 & _ & Hzero & _).
  assert (st0' = st0) as -> by congruence.
  rewrite Hzero, Nat.add_0_l in Hcount.
  assert (Hsame : same_parameters (heap st_a)).
  { destruct q as [|q].
    - rewrite Nat.mul_0_r in Hrun_a. injection Hrun_a as <-. exact Hsame0.
    - replace (1000 * S q) with (S (1000 * q + 999)) in Hrun_a by lia.
      rewrite run_snoc in Hrun_a.
      destruct (run (1000 * q + 999) st0) as [st_p|] eqn:Hrun_p;
        [|discriminate Hrun_a].
      destruct (tick_training _ _ Hrun_a Hpca) as [_ Hst].
      apply train_step_inv in Hst
        as (u & g1 & action & env1 & s1 & reward & term & trunc & env2 & h1 &
            _ & _ & _ & Hc & _ & _ & _ & _ & Hsync & _).
      destruct (synchronize_spec TI (S (eps_count st_p)) h1)
        as (h2 & Hsync' & _ & _ & Hcopy).
      rewrite Hsync in Hsync'. injection Hsync' as <-.
      apply Hcopy. rewrite <- Hc, Hcount.
      rewrite Nat.mul_comm. apply Nat.Div0.mod_mul. }
  assert (Hfrozen : ∀ id, id ∈ parameters target_net →
                          data (heap st id) = data (heap st_a id)).
  { apply (run_target_frozen r); [|done|done|].
    - by eapply reachable_optimizer_params.
    - intros j Hj. rewrite Hcount.
      replace (1000 * q + j) with (j + q * 1000) by lia.
      rewrite Nat.Div0.mod_add, Nat.mod_small by lia. lia. }
  split_and!; [done | done |].
  intros x. destruct Hsame as (H0w & H0b & H2w & H2b).
  unfold evaluate, forward, values.
  rewrite !Hfrozen by (apply list_elem_of_In; simpl; tauto).
  rewrite H0w, H0b, H2w, H2b. reflexivity.
Qed.

(** X12. Lines 86 to 94. Exploration never dies out: a pass of training
    whose draw of [random.random()] is below 0.001 explores at any count
    of steps, since the rate stays above its end; the action it takes and
    stores is the one sampled from the action space. *)
Theorem a_draw_below_epsilon_end_explores st st' (u : R) (g1 : generator RI) :
  train_step st = Some st' →
  random_random RI (random st) = (u, g1) →
  (u < 0.001)%R →
  ∃ action env1 s1 reward term trunc env2,
    (action, env1) = action_space_sample EI (env st) ∧
    env_step EI action env1 = ((s1, reward, term, trunc), env2) ∧
    replay_memory st'
    = append (state st, action, reward, term || trunc, s1) (replay_memory st).
Proof.
  intros Hst Hu Hlow.
  destruct (train_step_choice _ _ Hst)
    as (u' & g1' & action & env1 & s1 & reward & term & trunc & env2 &
        Hu' & Hchoice & Hmove & Hmem & _).
  rewrite Hu in Hu'. injection Hu' as <- <-.
  exists action, env1, s1, reward, term, trunc, env2.
  split_and!; [| done | done].
  destruct (Rlt_dec _ _) as [_|Hhigh]; [done|].
  exfalso. apply Hhigh.
  pose proof (ScheduleFacts.decay_above_end (S (eps_count st))) as Hend.
  apply Rlt_trans with 0.001%R; [exact Hlow | exact Hend].
Qed.

(** X13. Lines 154 to 160. Evaluation starts only when the window holds the
    length of an episode that reached step 499, that is, one that lasted
    500 steps at least. *)
Theorem evaluation_starts_only_after_a_long_episode st st' :
  pc st = Training → tick st = Some st' → pc st' = Evaluating →
  done st' = Some true ∧
  ∃ x, x ∈ items (avg_window_steps st') ∧ 499 ≤ x.
Proof.
  intros Hpc Htick Hpc'.
  destruct (tick_cases _ _ Htick) as [[_ Hst]|[Hpce _]]; [|by rewrite Hpc in Hpce].
  apply train_step_inv in Hst
    as (u & g1 & action & env1 & s1 & reward & term & trunc & env2 & h1 &
        _ & _ & _ & _ & _ & Hdone & _ & _ & _ & Hend).
  destruct (term || trunc); last first.
  { destruct Hend as [Hpct _]. by rewrite Hpc' in Hpct. }
  split; [done|]. destruct Hend as (_ & Hconv & _). apply Hconv in Hpc'.
  set (xs := items (avg_window_steps st')) in *.
  destruct (list.Forall_Exists_dec (λ x, x ≤ 498) (λ x, 499 ≤ x)
              (λ x, le_lt_dec x 498) xs) as [Hshort|Hlong].
  - exfalso. destruct xs as [|x xs'] eqn:Hxs.
    + rewrite average_nil in Hpc'. lra.
    + pose proof (average_le (x :: xs') 498 ltac:(done) Hshort) as Havg.
      rewrite INR_IZR_INZ in Havg. change (Z.of_nat 498) with 498%Z in Havg. lra.
  - apply list.Exists_exists in Hlong as (x & Hx & Hle). by exists x.
Qed.

(** X15. Lines 154 to 160. With an environment whose episodes reach step
    499 at most, as those of CartPole-v1 do, evaluation starts exactly
    when every length in the window is 499: at the start one full episode
    is enough, later the last five episodes must all be full ones. *)
Theorem a_capped_window_must_be_perfect st st' :
  pc st = Training → tick st = Some st' → done st' = Some true →
  Forall (λ x, x ≤ 499) (items (avg_window_steps st')) →
  (pc st' = Evaluating ↔
   items (avg_window_steps st') ≠ [] ∧
   Forall (λ x, x = 499) (items (avg_window_steps st'))).
Proof.
  intros Hpc Htick Hdone Hcap.
  destruct (tick_cases _ _ Htick) as [[_ Hst]|[Hpce _]]; [|by rewrite Hpc in Hpce].
  apply train_step_inv in Hst
    as (u & g1 & action & env1 & s1 & reward & term & trunc & env2 & h1 &
        _ & _ & _ & _ & _ & Hd & _ & _ & _ & Hend).
  rewrite Hd in Hdone. injection Hdone as Hdone. rewrite Hdone in Hend.
  destruct Hend as (_ & Hconv & _). rewrite Hconv.
  set (xs := items (avg_window_steps st')) in *. clearbody xs.
  clear Hconv Htick Hpc.
  assert (H499 : INR 499 = 499%R).
  { rewrite INR_IZR_INZ. by change (Z.of_nat 499) with 499%Z. }
  split.
  - intros Havg. destruct xs as [|x xs'] eqn:Hxs.
    + rewrite average_nil in Havg. lra.
    + split; [done|]. apply sum_tight; [done|].
      unfold average in Havg.
      assert (Hlen : (0 < INR (length (x :: xs')))%R).
      { apply lt_0_INR. simpl. lia. }
      apply INR_le. rewrite mult_INR, H499.
      apply Rmult_le_reg_r with (/ INR (length (x :: xs')))%R.
      { by apply Rinv_0_lt_compat. }
      rewrite Rmult_assoc, Rinv_r by lra. unfold Rdiv in Havg. lra.
  - intros [Hne Hall].
    assert (Hlong : Forall (λ x, 499 ≤ x) xs).
    { eapply list.Forall_impl; [done|]. intros x ->. done. }
    pose proof (average_ge xs 499 Hne Hlong) as Havg. lra.
Qed.

(** X16. Lines 81 to 171. A first episode that lasts long enough starts the
    evaluation at once: when the environment answers [done = False] to
    the first [k] steps, [k] being 499 at least, and [done = True] to the
    next one, the window holds the single length [k] and the pass that
    ends the episode leaves the training loop for the evaluation loop. *)
Theorem a_long_first_episode_starts_evaluation (k : nat) st0 :
  PyRandom.below RI → PyRandom.patient RI patience batch_size →
  (∀ e, (action_space_sample EI e).1 < 2) →
  init = Some st0 → 499 ≤ k → quiet_for EI k (env st0) →
  ∃ st', run (S k) st0 = Some st' ∧ pc st' = Evaluating ∧
         items (avg_window_steps st') = [k] ∧ eps_count st' = S k.
Proof.
  intros Hbelow Hpatient Hactions Hinit Hk Hquiet.
  destruct (init_spec RI EI TI fresh seed)
    as (st0' & Hinit' & Hwf & _ & Hpc & Hzero & Hstep & _).
  assert (st0' = st0) as -> by congruence.
  destruct (init_window RI EI TI fresh seed st0 Hinit) as [Hw _].
  destruct (quiet_episode RI EI TI patience Hbelow Hpatient Hactions k st0 Hwf Hpc Hquiet)
    as (st_m & st' & _ & Hpcm & Hstepm & Hcm & Hwm & Htick & Hrun & Hdone & _).
  exists st'. split; [done|].
  destruct (tick_cases _ _ Htick) as [[_ Hst]|[Hpce _]]; [|by rewrite Hpcm in Hpce].
  apply train_step_inv in Hst
    as (u & g1 & action & env1 & s1 & reward & term & trunc & env2 & h1 &
        _ & _ & _ & Hc & _ & Hd & _ & _ & _ & Hend).
  rewrite Hd in Hdone. injection Hdone as Hdone. rewrite Hdone in Hend.
  destruct Hend as (Hrec & Hconv & _).
  rewrite Hwm, Hw, Hstepm, Hstep in Hrec. simpl in Hrec.
  change (Some (Deque.mk [k] None) = Some (avg_window_steps st')) in Hrec.
  injection Hrec as Hrec. rewrite <- Hrec in *. cbn [items] in *.
  split_and!; [| done | lia].
  apply Hconv. rewrite average_singleton.
  apply le_INR in Hk. rewrite (INR_IZR_INZ 499) in Hk.
  change (Z.of_nat 499) with 499%Z in Hk. lra.
Qed.

(** X17. Lines 20 to 171. No step of the script fails: with a generator that
    answers below its bound and an action space whose samples are 0 or 1,
    the initialization completes, and from there every pass completes
    until the script has ended, whatever the number of passes. Neither the
    lookup of [torch.gather], nor [random.sample], nor [popleft], nor
    [load_state_dict] raises in a state the script reaches. *)
Theorem the_script_raises_nothing :
  PyRandom.below RI → PyRandom.patient RI patience batch_size →
  (∀ e, (action_space_sample EI e).1 < 2) →
  ∃ st0, init = Some st0 ∧
    ∀ n, (∃ st, run n st0 = Some st) ∨
         (∃ m st, m < n ∧ run m st0 = Some st ∧ pc st = Exited).
Proof.
  intros Hbelow Hpatient Hactions.
  destruct (init_spec RI EI TI fresh seed) as (st0 & Hinit & _).
  exists st0. split; [done|]. intros n. induction n as [|n IH].
  - left. by exists st0.
  - destruct IH as [[st Hrun]|(m & st & Hm & Hrun & Hpc)].
    + pose proof (reachable_well_formed RI EI TI patience Hactions fresh seed
                    n st0 st Hinit Hrun) as Hwf.
      rewrite run_snoc, Hrun. simpl. unfold DQN.tick.
      destruct (pc st) eqn:Hpc.
      * left. destruct (train_step_total RI EI TI patience Hbelow Hpatient Hactions
                          st Hwf) as [st' Hst']. by exists st'.
      * left. destruct (evaluate_step_total _ _ _ st) as (st' & a & Hst' & _).
        by exists st'.
      * right. exists n, st. split_and!; [lia | done | done].
    + right. exists m, st. split_and!; [lia | done | done].
Qed.

End Script.
End LoopFacts.

(* ===================================================================== *)
(** ** More on the kernels: state dictionaries and the update *)
(* ===================================================================== *)

Module KernelFacts.
Import Torch TorchFacts DQN StepFacts.

Section Kernels.

  Variable TI : TorchImpl.

  (** *** load_state_dict *)

Lemma param_eta (p : Param TI) : mkParam (data p) (grad p) = p.
Proof. by destruct p. Qed.

Lemma names_of_a_network (net : Network) :
  (named_parameters net).*1
  = [ "net.0.weight"; "net.0.bias"; "net.2.weight"; "net.2.bias" ]%string.
Proof. reflexivity. Qed.

(** X22. [state_dict] and [load_state_dict], lines 69 and 152. They are
    inverse to each other on a network whose four parameters are distinct
    tensors: the dictionary read back after a load is the dictionary that
    was loaded, gradients and foreign tensors being untouched; and loading
    a network with its own dictionary changes nothing. *)
Theorem load_state_dict_round_trip (net : Network) (sd : gmap string (tensor TI)) h h' :
  NoDup (parameters net) →
  load_state_dict TI net sd h = Some h' →
  state_dict TI net h' = sd ∧
  (∀ id, grad (h' id) = grad (h id)) ∧
  (∀ id, id ∉ parameters net → h' id = h id) ∧
  ∃ h'', load_state_dict TI net (state_dict TI net h') h' = Some h'' ∧
         ∀ id, h'' id = h' id.
Proof.
  intros Hnodup Hload. unfold load_state_dict in Hload.
  destruct (decide (dom sd = _)) as [Hdom|]; [|done].
  destruct (copy_params_spec TI (named_parameters net) sd h)
    as (h1 & Hcopy & Hown & Hother); [|done|].
  { intros kp Hin. apply elem_of_dom. rewrite Hdom. apply elem_of_list_to_set.
    apply list_elem_of_fmap. by exists kp. }
  rewrite Hload in Hcopy. injection Hcopy as <-.
  assert (Hat : ∀ key p, (key, p) ∈ named_parameters net →
                         sd !! key = Some (data (h' p)) ∧ grad (h' p) = grad (h p)).
  { intros key p Hin. destruct (Hown _ Hin) as (x & Hx & Hp). simpl in *.
    by rewrite Hp. }
  assert (H0w : ("net.0.weight"%string, net_0_weight net) ∈ named_parameters net)
    by (apply list_elem_of_In; simpl; tauto).
  assert (H0b : ("net.0.bias"%string, net_0_bias net) ∈ named_parameters net)
    by (apply list_elem_of_In; simpl; tauto).
  assert (H2w : ("net.2.weight"%string, net_2_weight net) ∈ named_parameters net)
    by (apply list_elem_of_In; simpl; tauto).
  assert (H2b : ("net.2.bias"%string, net_2_bias net) ∈ named_parameters net)
    by (apply list_elem_of_In; simpl; tauto).
  split_and!.
  - apply map_eq. intros key.
    destruct (state_dict_lookup TI net h') as (S0 & S1 & S2 & S3).
    destruct (decide (key ∈ (named_parameters net).*1)) as [Hin|Hout].
    + rewrite names_of_a_network in Hin.
      repeat (apply elem_of_cons in Hin as [->|Hin];
              [first [ by rewrite S0, (proj1 (Hat _ _ H0w))
                     | by rewrite S1, (proj1 (Hat _ _ H0b))
                     | by rewrite S2, (proj1 (Hat _ _ H2w))
                     | by rewrite S3, (proj1 (Hat _ _ H2b)) ]|]).
      by apply elem_of_nil in Hin.
    + transitivity (@None (tensor TI)).
      * apply not_elem_of_dom. rewrite state_dict_keys.
        rewrite <- (names_of_a_network net). by rewrite elem_of_list_to_set.
      * symmetry. apply not_elem_of_dom. rewrite Hdom. by rewrite elem_of_list_to_set.
  - intros id. destruct (decide (id ∈ parameters net)) as [Hin|Hout].
    + unfold parameters in Hin. apply list_elem_of_fmap in Hin as ([key p] & -> & Hin).
      apply (Hat key p Hin).
    + by rewrite Hother.
  - done.
  - destruct (load_state_dict_copies TI net net h' Hnodup)
      as (h'' & Hload' & E0w & E0b & E2w & E2b & Hrest).
    exists h''. split; [done|]. intros id.
    destruct (decide (id ∈ parameters net)) as [Hin|Hout]; [|by apply Hrest].
    unfold parameters, named_parameters in Hin. cbn [fmap list_fmap snd] in Hin.
    repeat (apply elem_of_cons in Hin as [->|Hin];
            [first [ rewrite E0w | rewrite E0b | rewrite E2w | rewrite E2b ];
             apply param_eta|]).
    by apply elem_of_nil in Hin.
Qed.

  (** *** One training update, parameter by parameter *)

Lemma update_params_own (ps : list nat) o h o' h' :
  NoDup ps →
  fold_left (update_param TI) ps (o, h) = (o', h') →
  ∀ id, id ∈ ps →
    h' id = match grad (h id) with
            | None => h id
            | Some g => mkParam (adam TI (lr o) (opt_state o !! id) (data (h id)) g).2
                                (Some g)
            end.
Proof.
  revert o h. induction ps as [|p ps IH]; intros o h Hnodup Hfold id Hin.
  - by apply elem_of_nil in Hin.
  - apply list.NoDup_cons in Hnodup as [Hp Hnodup]. cbn [fold_left] in Hfold.
    destruct (update_param TI (o, h) p) as [o1 h1] eqn:Hone.
    assert (Hstep : lr o1 = lr o ∧
                    (∀ i, i ≠ p → h1 i = h i ∧ opt_state o1 !! i = opt_state o !! i) ∧
                    h1 p = match grad (h p) with
                           | None => h p
                           | Some g =>
                               mkParam (adam TI (lr o) (opt_state o !! p) (data (h p)) g).2
                                       (Some g)
                           end).
    { unfold update_param in Hone. destruct (grad (h p)) as [g|] eqn:Hg.
      - destruct (adam TI (lr o) (opt_state o !! p) (data (h p)) g) as [s x] eqn:Hadam.
        injection Hone as <- <-. simpl. split_and!; [done | |].
        + intros i Hi. split; [by rewrite fn_lookup_insert_ne|].
          by rewrite lookup_insert_ne.
        + by rewrite fn_lookup_insert.
      - injection Hone as <- <-. by split_and!. }
    destruct Hstep as (Hlr & Hrest & Hown).
    apply elem_of_cons in Hin as [->|Hin].
    + destruct (update_params_frame TI ps o1 h1 o' h' Hfold) as (_ & _ & Hframe).
      rewrite Hframe by done. done.
    + assert (Hne : id ≠ p) by (by intros ->).
      rewrite (IH o1 h1 Hnodup Hfold id Hin).
      destruct (Hrest id Hne) as [-> ->]. by rewrite Hlr.
Qed.

(** X23. Lines 145 to 148. One training update, parameter by parameter: each
    parameter of the online network receives one Adam update from the
    gradient of the loss of this batch alone, [zero_grad] having cleared
    what its [.grad] held; each parameter of the target network keeps its
    values while the gradient of the batch is added to what its [.grad]
    holds, which [zero_grad] does not clear. *)
Theorem update_applies_fresh_gradients
    (experiences : list experience) (h : Torch.heap TI) (o : Optimizer TI) h' o' :
  params o = parameters online_net →
  update TI experiences h o = Some (h', o') →
  let v := values TI (zero_grad TI o h) in
  let g := autograd TI (λ v, value <$> loss TI experiences v) v in
  (∀ id, v id = data (h id)) ∧
  (∀ id, id ∈ parameters online_net →
         h' id = mkParam (adam TI (lr o) (opt_state o !! id) (data (h id)) (g id)).2
                         (Some (g id))) ∧
  (∀ id, id ∈ parameters target_net →
         h' id = mkParam (data (h id))
                         (Some (match grad (h id) with
                                | None => g id
                                | Some g0 => tensor_add TI g0 (g id)
                                end))).
Proof.
  intros Hparams Hupdate v g. unfold update in Hupdate.
  destruct (loss TI experiences (values TI h)) as [l|] eqn:Hloss; simpl in Hupdate; [|done].
  pose proof (loss_leaves TI experiences _ l Hloss) as Hleaves.
  destruct (optimizer_step TI o _) as [o3 h3] eqn:Hstep.
  injection Hupdate as <- <-.
  set (h1 := zero_grad TI o h) in *.
  set (h2 := backward TI _ _ h1) in *.
  assert (Hgrad2 : ∀ id, id ∈ parameters online_net ++ parameters target_net →
            grad (h2 id) = Some (match grad (h1 id) with
                                 | None => g id
                                 | Some g0 => tensor_add TI g0 (g id)
                                 end)).
  { intros id Hid. unfold h2, backward. rewrite Hleaves.
    rewrite backward_fold_reached;
      [done | by apply elem_of_remove_dups | apply NoDup_remove_dups]. }
  assert (Hdata2 : ∀ id, data (h2 id) = data (h id)).
  { intros id. unfold h2. rewrite backward_data. apply zero_grad_data. }
  split_and!.
  - intros id. apply zero_grad_data.
  - intros id Hid.
    assert (Hin : id ∈ params o) by (by rewrite Hparams).
    assert (Hnodup : NoDup (params o)).
    { rewrite Hparams. by apply (bool_decide_unpack _). }
    rewrite (update_params_own (params o) o h2 o3 h3 Hnodup Hstep id Hin).
    rewrite Hgrad2 by (apply elem_of_app; by left).
    unfold h1. rewrite zero_grad_own by done. by rewrite Hdata2.
  - intros id Hid.
    assert (Hout : id ∉ params o).
    { rewrite Hparams. intros Hin. by apply online_net_target_net_disjoint in Hin. }
    destruct (optimizer_step_frame TI o h2 o3 h3 Hstep) as (_ & _ & Hframe).
    rewrite Hframe by done.
    pose proof (Hgrad2 id ltac:(apply elem_of_app; by right)) as Hg.
    unfold h1 in Hg. rewrite zero_grad_other in Hg by done.
    pose proof (Hdata2 id) as Hd.
    destruct (h2 id) as [d2 g2]. simpl in *. by rewrite Hd, Hg.
Qed.

End Kernels.
End KernelFacts.

(* ===================================================================== *)
(** ** The gradients of the target network *)
(* ===================================================================== *)

Module GradientFacts.
Import Deque Torch TorchFacts DQN StepFacts LoopFacts.

Section Script.

  Variable RI : RandomImpl.
  Variable EI : EnvImpl.
  Variable TI : TorchImpl.
  Variable patience : nat.
  Variable fresh : nat → tensor TI.
  Variable seed : generator RI.

  Local Abbreviation Trainer := (Trainer RI EI TI).
  Local Abbreviation tick := (tick RI EI TI patience).
  Local Abbreviation run := (run RI EI TI patience).
  Local Abbreviation init := (init RI EI TI fresh seed).

  Implicit Types (st : Trainer).

  (** The memory is larger than a batch. *)
Lemma batch_fits : 32 ≤ 50000.
Proof. apply Nat.leb_le. lazy. reflexivity. Qed.

Lemma copy_params_keeps_grad (nps : list (string * nat)) (sd : gmap string (tensor TI))
    (h h' : Torch.heap TI) :
  copy_params TI nps sd h = Some h' → ∀ id, grad (h' id) = grad (h id).
Proof.
  revert h. induction nps as [|[key p] nps IH]; intros h Hcopy id; simpl in Hcopy.
  - by simplify_eq.
  - destruct (sd !! key) as [x|]; simpl in Hcopy; [|done].
    rewrite (IH _ Hcopy id).
    destruct (decide (id = p)) as [->|Hne].
    + by rewrite fn_lookup_insert.
    + by rewrite fn_lookup_insert_ne.
Qed.

Lemma synchronize_keeps_grad (count : nat) (h h' : Torch.heap TI) :
  synchronize TI count h = Some h' → ∀ id, grad (h' id) = grad (h id).
Proof.
  unfold synchronize, load_state_dict. intros Hsync id.
  destruct (count mod 1000 =? 0); [|by simplify_eq].
  destruct (decide _); [|done]. by eapply copy_params_keeps_grad.
Qed.

  (** An update leaves a gradient on every parameter of the target
      network; a pass without an update leaves what was there. *)
Lemma learn_target_grad (memory : deque experience) h o g h' o' g' :
  learn RI TI patience memory h o g = Some (h', o', g') →
  params o = parameters online_net →
  ∀ id, id ∈ parameters target_net →
    (is_Some (grad (h id)) → is_Some (grad (h' id))) ∧
    (batch_size ≤ len memory → is_Some (grad (h' id))).
Proof.
  intros Hlearn Hparams id Hid. unfold learn in Hlearn.
  assert (Hout : id ∉ params o).
  { rewrite Hparams. intros Hin. by apply online_net_target_net_disjoint in Hin. }
  destruct (Nat.leb_spec batch_size (len memory)) as [Hfull|Hshort].
  - destruct (PyRandom.sample _ _ _ _ _) as [[experiences g1]|]; simpl in Hlearn; [|done].
    destruct (update TI experiences h o) as [[h1 o1]|] eqn:Hupdate; simpl in Hlearn; [|done].
    injection Hlearn as <- <- <-.
    destruct (update_frame TI experiences h o h1 o1 Hupdate) as (_ & _ & _ & Hgrad).
    split; intros _; by apply Hgrad.
  - injection Hlearn as <- <- <-. split; [done | lia].
Qed.

Lemma tick_target_grad st st' :
  tick st = Some st' →
  params (optimizer st) = parameters online_net →
  len (replay_memory st') = Nat.min (eps_count st') 50000 →
  (32 ≤ eps_count st →
   ∀ id, id ∈ parameters target_net → is_Some (grad (heap st id))) →
  (32 ≤ eps_count st' →
   ∀ id, id ∈ parameters target_net → is_Some (grad (heap st' id))).
Proof.
  intros Htick Hparams Hlen Hbefore Hcount id Hid.
  destruct (tick_cases _ _ _ _ _ _ Htick) as [[Hpc Hst]|[Hpc Hst]].
  - apply train_step_inv in Hst
      as (u & g1 & action & env1 & s1 & reward & term & trunc & env2 & h1 &
          _ & _ & _ & Hc & _ & _ & _ & Hlearn & Hsync & _).
    rewrite (synchronize_keeps_grad _ _ _ Hsync).
    destruct (learn_target_grad _ _ _ _ _ _ _ Hlearn Hparams id Hid) as [_ Hfull].
    apply Hfull. unfold batch_size. pose proof batch_fits. lia.
  - apply evaluate_step_inv in Hst as (_ & Hh & _ & _ & Hc & _).
    rewrite Hh. apply Hbefore; [lia | done].
Qed.

(** X24. Lines 132 to 148. The gradients of the target network are never
    cleared: no parameter has a gradient when the first pass starts, and
    from the first update on, that is, once 32 steps have been counted,
    every parameter of the target network carries a gradient in every
    state the script reaches. *)
Theorem target_gradients_are_never_cleared (n : nat) st0 st :
  init = Some st0 → run n st0 = Some st →
  (∀ id, grad (heap st0 id) = None) ∧
  (32 ≤ eps_count st →
   ∀ id, id ∈ parameters target_net → is_Some (grad (heap st id))).
Proof.
  intros Hinit Hrun. split.
  - intros id. unfold DQN.init in Hinit.
    destruct (load_state_dict _ _ _ _) as [h1|] eqn:Hload; simpl in Hinit; [|done].
    destruct (env_reset EI _) as [s env1]. injection Hinit as <-. cbn [heap].
    unfold load_state_dict in Hload. destruct (decide _); [|done].
    by rewrite (copy_params_keeps_grad _ _ _ _ Hload id).
  - revert st Hrun. induction n as [|n IH]; intros st Hrun Hcount.
    + injection Hrun as <-.
      destruct (init_spec RI EI TI fresh seed) as (st0' & Hinit' & _ & _ & _ & Hzero & _).
      assert (st0' = st0) as -> by congruence. lia.
    + rewrite run_snoc in Hrun.
      destruct (DQN.run RI EI TI patience n st0) as [st1|] eqn:Hrun1; [|discriminate Hrun].
      assert (Hrun' : run (S n) st0 = Some st) by (by rewrite run_snoc, Hrun1).
      destruct (reachable_memory_count _ _ _ _ _ _ (S n) st0 st Hinit Hrun')
        as (_ & Hlen & _).
      eapply tick_target_grad; [exact Hrun | | exact Hlen | by apply IH | exact Hcount].
      by eapply reachable_optimizer_params.
Qed.

End Script.
End GradientFacts.

(* ===================================================================== *)
(** ** More on random.sample *)
(* ===================================================================== *)

Module SampleBounds.
Import PyRandom SampleFacts.

Lemma pow4_from_ge (fuel p m : nat) :
  m ≤ p * 4 ^ fuel → m ≤ pow4_from fuel p m.
Proof.
  revert p. induction fuel as [|fuel IH]; intros p Hm; simpl.
  - simpl in Hm. lia.
  - destruct (Nat.ltb_spec p m) as [Hlt|Hge]; [|done].
    apply IH. rewrite Nat.pow_succ_r' in Hm. lia.
Qed.

Lemma setsize_ge (k : nat) : k ≤ setsize k.
Proof.
  unfold setsize. destruct (Nat.ltb_spec 5 k) as [Hbig|Hsmall]; [|lia].
  pose proof (pow4_from_ge (3 * k) 1 (3 * k)) as Hpow.
  pose proof (Nat.pow_gt_lin_r 4 (3 * k) ltac:(lia)) as Hlin.
  specialize (Hpow ltac:(lia)). lia.
Qed.

(** X25. [random.sample(population, k)], line 107: a sample as large as the
    population is the population in another order, every item taken
    exactly once; so is the first batch of the script if the memory holds
    exactly 32 transitions when it is drawn. *)
Theorem sample_of_everything_is_a_permutation
    (RI : RandomImpl) (patience : nat) {A : Type} (population : list A)
    (g : generator RI) :
  below RI →
  ∃ result g',
    sample RI patience population (length population) g = Some (result, g') ∧
    result ≡ₚ population.
Proof.
  intros Hbelow. unfold sample.
  rewrite Nat.ltb_irrefl.
  destruct (Nat.leb_spec (length population) (setsize (length population)))
    as [_|Hlt]; [|pose proof (setsize_ge (length population)); lia].
  destruct (sample_pool_total RI (length population) 0 (length population)
              population g Hbelow eq_refl ltac:(lia)) as [[result g'] Hsample].
  exists result, g'. split; [done|].
  pose proof (sample_pool_length RI _ _ _ _ _ _ _ Hsample) as Hlen.
  destruct (sample_pool_perm RI (length population) 0 (length population) population
              result g g' Hbelow eq_refl ltac:(lia) Hsample) as [rest Hperm].
  rewrite Nat.sub_0_r, firstn_all in Hperm.
  assert (Hrest : rest = []).
  { apply Permutation_length in Hperm. rewrite length_app in Hperm.
    apply nil_length_inv. lia. }
  rewrite Hrest, app_nil_r in Hperm. by symmetry.
Qed.

End SampleBounds.

(* ===================================================================== *)
(** ** The further properties on the doubles *)
(* ===================================================================== *)

Module OnDoublesMore.
Import Doubles DoublesFacts Deque Torch TorchFacts DQN StepFacts Scenes Traces.
Import OnDoubles LoopFacts KernelFacts GradientFacts SampleBounds.

Local Open Scope R_scope.

Local Abbreviation run_100 := (run counting (countdown 100) scalar 32).
Local Abbreviation tick_100 := (tick counting (countdown 100) scalar 32).
Local Abbreviation run_500 := (run counting (countdown 500) scalar 32).
Local Abbreviation tick_500 := (tick counting (countdown 500) scalar 32).

(** The script on the environment of 100 quiet steps starts calm. *)
Lemma calm_start :
  ∃ st0, start_100 = Some st0 ∧ calm 100 0 st0 ∧ eps_count st0 = 0%nat.
Proof.
  destruct (init_spec counting (countdown 100) scalar (λ _, 0) 0%nat)
    as (st0 & Hinit & Hwf & _ & Hpc & Hcount0 & Hstep0 & _ & Henv).
  destruct (init_window counting (countdown 100) scalar (λ _, 0) 0%nat st0 Hinit)
    as [Hwindow0 Ht0].
  exists st0. split_and!; [done | | done].
  unfold calm. rewrite Hwindow0, Ht0, Hstep0, Henv. simpl.
  split_and!; try done; try constructor; lia.
Qed.

(** It is still training after [m] passes, for [m] up to 999, and then
    makes one more pass of training. *)
Lemma calm_passes (m : nat) :
  (m <= 998)%nat →
  ∃ st0 st st',
    start_100 = Some st0 ∧ run_100 m st0 = Some st ∧ pc st = Training ∧
    eps_count st = m ∧ tick_100 st = Some st' ∧ pc st' = Training ∧
    run_100 (S m) st0 = Some st'.
Proof.
  intros Hm. destruct calm_start as (st0 & Hinit & Hcalm & Hcount0).
  destruct (calm_run 100 m 0 st0 ltac:(lia) ltac:(lia) Hcalm)
    as (st & Hrun & Hcalm' & Hcount).
  destruct (calm_tick 100 m st ltac:(lia) ltac:(lia) Hcalm')
    as (st' & Htick & Hcalm'' & _).
  exists st0, st, st'.
  split_and!; [done | done | apply Hcalm' | lia | done | apply Hcalm'' |].
  rewrite LoopFacts.run_snoc, Hrun. done.
Qed.

(** On an environment of [horizon] quiet steps, [horizon] being 499 at
    least, the first episode ends at step [horizon] and starts the
    evaluation. *)
Lemma long_first_episode (horizon : nat) :
  (499 <= horizon)%nat →
  ∃ st0 st st',
    init counting (countdown horizon) scalar (λ _, 0) 0%nat = Some st0 ∧
    run counting (countdown horizon) scalar 32 horizon st0 = Some st ∧
    pc st = Training ∧ step st = horizon ∧ avg_window_steps st = empty None ∧
    tick counting (countdown horizon) scalar 32 st = Some st' ∧
    done st' = Some true ∧ pc st' = Evaluating ∧
    items (avg_window_steps st') = [horizon].
Proof.
  intros Hlong.
  destruct (init_spec counting (countdown horizon) scalar (λ _, 0) 0%nat)
    as (st0 & Hinit & Hwf & _ & Hpc & Hcount0 & Hstep0 & _ & Henv).
  destruct (init_window counting (countdown horizon) scalar (λ _, 0) 0%nat st0 Hinit)
    as [Hwindow0 _].
  assert (Hquiet : quiet_for (countdown horizon) horizon (env st0)).
  { rewrite Henv. by apply countdown_quiet. }
  destruct (quiet_episode counting (countdown horizon) scalar 32
              counting_below (counting_patient 32) (countdown_actions horizon)
              horizon st0 Hwf Hpc Hquiet)
    as (st & st' & Hrun & Hpc_m & Hstep_m & _ & Hwindow_m & Htick & _ & Hdone & _).
  pose proof Htick as Hinv. unfold tick in Hinv. rewrite Hpc_m in Hinv.
  apply train_step_inv in Hinv
    as (u & g1 & action & env1 & s1 & reward & term & trunc & env2 & h1 &
        _ & _ & _ & _ & _ & Hd & _ & _ & _ & Hend).
  pose proof Hdone as Hflag. rewrite Hd in Hflag. injection Hflag as Hflag.
  rewrite Hflag in Hend. destruct Hend as (Hw & Hconv & _).
  rewrite Hstep_m, Hstep0, Hwindow_m, Hwindow0 in Hw.
  change (Some (Deque.mk [horizon] None) = Some (avg_window_steps st')) in Hw.
  injection Hw as Hw.
  exists st0, st, st'.
  split_and!; [done | done | done | lia | congruence | done | done | | by rewrite <- Hw].
  apply Hconv. rewrite <- Hw. cbn [items]. rewrite average_singleton.
  apply le_INR in Hlong. rewrite (INR_IZR_INZ 499) in Hlong.
  change (Z.of_nat 499) with 499%Z in Hlong. lra.
Qed.

(** The generator that draws 0 answers [_randbelow] as the counting one
    does. *)
Lemma drawing_zero_below : PyRandom.below drawing_zero.
Proof. exact counting_below. Qed.

Lemma drawing_zero_patient (k : nat) : PyRandom.patient drawing_zero k k.
Proof. exact (counting_patient k). Qed.

Lemma training_update_writes_online_values_only_witness :
  ∃ st0 st st' u g1 h1 experiences,
    start_100 = Some st0 ∧ run_100 999 st0 = Some st ∧ tick_100 st = Some st' ∧
    pc st = Training ∧ eps_count st' = 1000%nat ∧
    random_random counting (random st) = (u, g1) ∧
    PyRandom.sample counting 32 (items (replay_memory st')) batch_size g1
    = Some (experiences, random st') ∧
    update scalar experiences (heap st) (optimizer st) = Some (h1, optimizer st') ∧
    synchronize scalar 1000 h1 = Some (heap st') ∧
    (∀ id, id ∈ parameters online_net → heap st' id = h1 id) ∧
    same_parameters (heap st').
Proof.
  destruct calm_start as (st0 & Hinit & Hcalm & Hcount0).
  destruct (calm_run 100 999 0 st0 ltac:(lia) ltac:(lia) Hcalm)
    as (st & Hrun & Hcalm' & Hcount).
  destruct Hcalm' as (Hwf & Hpc & _).
  destruct (train_step_total counting (countdown 100) scalar 32
              counting_below (counting_patient 32) (countdown_actions 100)
              st Hwf) as [st' Hst'].
  assert (Htick : tick_100 st = Some st').
  { unfold tick. by rewrite Hpc. }
  pose proof (train_step_inv _ _ _ _ _ _ Hst')
    as (? & ? & ? & ? & ? & ? & ? & ? & ? & ? & _ & _ & _ & Hcount' & _).
  rewrite Hcount, Hcount0 in Hcount'. simpl in Hcount'.
  assert (Hrun' : run_100 1000 st0 = Some st').
  { change 1000%nat with (S 999). rewrite LoopFacts.run_snoc, Hrun. exact Htick. }
  destruct (reachable_memory_count counting (countdown 100) scalar 32 (λ _, 0) 0%nat
              1000 st0 st' Hinit Hrun') as (_ & Hlen & _).
  destruct (training_update_writes_online_values_only counting (countdown 100) scalar 32
              (λ _, 0) 0%nat 999 st0 st st' Hinit Hrun Htick)
    as (_ & _ & _ & Hpass & _).
  destruct (Hpass Hpc)
    as (u & g1 & h1 & Hu & _ & Hwhat & Hsync & Honline & _ & Hsame).
  assert (Hfull : (batch_size <=? len (replay_memory st'))%nat = true).
  { apply Nat.leb_le. rewrite Hlen, Hcount'. unfold batch_size.
    pose proof batch_fits. lia. }
  rewrite Hfull in Hwhat. destruct Hwhat as (experiences & Hsample & Hupdate).
  rewrite Hcount' in Hsync.
  exists st0, st, st', u, g1, h1, experiences.
  split_and!; try assumption. apply Hsame. rewrite Hcount'. reflexivity.
Defined.

Lemma replay_memory_holds_one_transition_per_pass_witness :
  ∃ st0 st,
    start_100 = Some st0 ∧ run_100 999 st0 = Some st ∧
    len (replay_memory st) = Nat.min (eps_count st) 50000 ∧
    (eps_count st <= 999)%nat.
Proof.
  destruct (calm_passes 998 ltac:(lia)) as (st0 & _ & st & Hinit & _ & _ & _ & _ & _ & Hrun).
  destruct (replay_memory_holds_one_transition_per_pass counting (countdown 100) scalar 32
              (λ _, 0) 0%nat 999 st0 st Hinit Hrun) as (Hlen & Hle & _).
  exists st0, st. split_and!; assumption.
Defined.

Lemma stored_actions_are_actions_of_the_environment_witness :
  ∃ st0 st,
    (∀ e, (action_space_sample (countdown 100) e).1 < 2)%nat ∧
    start_100 = Some st0 ∧ run_100 999 st0 = Some st ∧
    ∀ e, e ∈ items (replay_memory st) → e1 e = 0%nat ∨ e1 e = 1%nat.
Proof.
  destruct (calm_passes 998 ltac:(lia)) as (st0 & _ & st & Hinit & _ & _ & _ & _ & _ & Hrun).
  pose proof (stored_actions_are_actions_of_the_environment
                counting (countdown 100) scalar 32 (λ _, 0) 0%nat 999 st0 st
                (countdown_actions 100) Hinit Hrun) as Hactions.
  exists st0, st. split_and!; [apply countdown_actions | assumption..].
Defined.

Lemma stored_transitions_are_linked_witness :
  ∃ st0 st,
    start_100 = Some st0 ∧ run_100 999 st0 = Some st ∧
    linked (items (replay_memory st)).
Proof.
  destruct (calm_passes 998 ltac:(lia)) as (st0 & _ & st & Hinit & _ & _ & _ & _ & _ & Hrun).
  destruct (stored_transitions_are_linked counting (countdown 100) scalar 32
              (λ _, 0) 0%nat 999 st0 st Hinit Hrun) as (Hlinked & _).
  exists st0, st. split_and!; assumption.
Defined.

Lemma window_keeps_the_last_five_witness :
  ∃ st0 st st',
    start_100 = Some st0 ∧ run_100 700 st0 = Some st ∧ pc st = Training ∧
    tick_100 st = Some st' ∧
    len (avg_window_steps st) = Nat.min (t st) 5.
Proof.
  destruct (calm_passes 700 ltac:(lia))
    as (st0 & st & st' & Hinit & Hrun & Hpc & _ & Htick & _).
  destruct (window_keeps_the_last_five counting (countdown 100) scalar 32
              (λ _, 0) 0%nat 700 st0 st st' Hinit Hrun Hpc Htick) as (Hlen & _).
  exists st0, st, st'. split_and!; assumption.
Defined.

Lemma training_ends_with_the_1000th_episode_witness :
  ∃ st0 st st',
    start_100 = Some st0 ∧ run_100 700 st0 = Some st ∧ tick_100 st = Some st' ∧
    (t st' < 1000)%nat ∧
    (pc st' = Exited → tick_100 st' = None).
Proof.
  destruct (calm_passes 700 ltac:(lia))
    as (st0 & st & st' & Hinit & Hrun & _ & _ & Htick & _).
  destruct (training_ends_with_the_1000th_episode counting (countdown 100) scalar 32
              (λ _, 0) 0%nat 700 st0 st st' Hinit Hrun Htick) as (Ht & _ & Hended).
  exists st0, st, st'. split_and!; assumption.
Defined.

Lemma nothing_is_learnt_before_the_32nd_pass_witness :
  ∃ st0 st,
    start_100 = Some st0 ∧ run_100 31 st0 = Some st ∧ (31 < 32)%nat ∧
    heap st = heap st0 ∧ optimizer st = optimizer st0.
Proof.
  destruct (calm_passes 30 ltac:(lia)) as (st0 & _ & st & Hinit & _ & _ & _ & _ & _ & Hrun).
  destruct (nothing_is_learnt_before_the_32nd_pass counting (countdown 100) scalar 32
              (λ _, 0) 0%nat 31 st0 st Hinit Hrun ltac:(lia)) as (Hheap & Hopt & _).
  exists st0, st. split_and!; [done | done | lia | done | done].
Defined.

Lemma target_holds_the_last_snapshot_witness :
  ∃ st0 st,
    start_100 = Some st0 ∧ run_100 (1000 * 0) st0 = Some st0 ∧
    run_100 999 st0 = Some st ∧ (999 < 1000)%nat ∧ pc st = Training ∧
    ∀ x, evaluate target_net st x = evaluate online_net st0 x.
Proof.
  destruct (calm_passes 998 ltac:(lia))
    as (st0 & _ & st & Hinit & _ & _ & _ & _ & Hpc & Hrun).
  destruct (target_holds_the_last_snapshot counting (countdown 100) scalar 32
              (λ _, 0) 0%nat 0 999 st0 st0 st Hinit eq_refl Hrun ltac:(lia) Hpc)
    as (_ & _ & Heval).
  exists st0, st. split_and!; [done | done | done | lia | done | done].
Defined.

Lemma a_draw_below_epsilon_end_explores_witness :
  ∃ st0 st' action env1 s1 reward term trunc env2,
    init drawing_zero (countdown 100) scalar (λ _, 0) 0%nat = Some st0 ∧
    train_step drawing_zero (countdown 100) scalar 32 st0 = Some st' ∧
    random_random drawing_zero (random st0) = (0, S (random st0)) ∧
    0 < 0.001 ∧
    (action, env1) = action_space_sample (countdown 100) (env st0) ∧
    env_step (countdown 100) action env1 = ((s1, reward, term, trunc), env2) ∧
    replay_memory st'
    = append (state st0, action, reward, term || trunc, s1) (replay_memory st0).
Proof.
  destruct (init_spec drawing_zero (countdown 100) scalar (λ _, 0) 0%nat)
    as (st0 & Hinit & Hwf & _).
  destruct (train_step_total drawing_zero (countdown 100) scalar 32
              drawing_zero_below (drawing_zero_patient 32) (countdown_actions 100)
              st0 Hwf) as [st' Hst'].
  assert (Hlow : 0 < 0.001) by lra.
  destruct (a_draw_below_epsilon_end_explores drawing_zero (countdown 100) scalar 32
              st0 st' 0 (S (random st0)) Hst' eq_refl Hlow)
    as (action & env1 & s1 & reward & term & trunc & env2 & Hsample & Hmove & Hmem).
  exists st0, st', action, env1, s1, reward, term, trunc, env2. by split_and!.
Defined.

Lemma evaluation_starts_only_after_a_long_episode_witness :
  ∃ st0 st st' x,
    start_500 = Some st0 ∧ run_500 500 st0 = Some st ∧
    pc st = Training ∧ tick_500 st = Some st' ∧ pc st' = Evaluating ∧
    x ∈ items (avg_window_steps st') ∧ (499 <= x)%nat.
Proof.
  destruct (long_first_episode 500 ltac:(lia))
    as (st0 & st & st' & Hinit & Hrun & Hpc & _ & _ & Htick & _ & Hpc' & _).
  destruct (evaluation_starts_only_after_a_long_episode counting (countdown 500) scalar 32
              st st' Hpc Htick Hpc') as (_ & x & Hx & Hlong).
  exists st0, st, st', x. by split_and!.
Defined.

Lemma a_capped_window_must_be_perfect_witness :
  ∃ st0 st st',
    init counting (countdown 499) scalar (λ _, 0) 0%nat = Some st0 ∧
    run counting (countdown 499) scalar 32 499 st0 = Some st ∧
    pc st = Training ∧
    tick counting (countdown 499) scalar 32 st = Some st' ∧
    done st' = Some true ∧
    Forall (λ x, x ≤ 499)%nat (items (avg_window_steps st')) ∧
    pc st' = Evaluating ∧
    Forall (λ x, x = 499)%nat (items (avg_window_steps st')).
Proof.
  destruct (long_first_episode 499 ltac:(lia))
    as (st0 & st & st' & Hinit & Hrun & Hpc & _ & _ & Htick & Hdone & Hpc' & Hw).
  assert (Hcap : Forall (λ x, x ≤ 499)%nat (items (avg_window_steps st'))).
  { rewrite Hw. repeat constructor. }
  destruct (proj1 (a_capped_window_must_be_perfect counting (countdown 499) scalar 32
                     st st' Hpc Htick Hdone Hcap) Hpc') as [_ Hall].
  exists st0, st, st'. split_and!; assumption.
Defined.

Lemma a_long_first_episode_starts_evaluation_witness :
  ∃ st0 st',
    start_500 = Some st0 ∧ (499 <= 500)%nat ∧
    quiet_for (countdown 500) 500 (env st0) ∧
    run_500 501 st0 = Some st' ∧ pc st' = Evaluating ∧
    items (avg_window_steps st') = [500%nat].
Proof.
  destruct (init_spec counting (countdown 500) scalar (λ _, 0) 0%nat)
    as (st0 & Hinit & _ & _ & _ & _ & _ & _ & Henv).
  assert (Hquiet : quiet_for (countdown 500) 500 (env st0)).
  { rewrite Henv. by apply countdown_quiet. }
  destruct (a_long_first_episode_starts_evaluation counting (countdown 500) scalar 32
              (λ _, 0) 0%nat 500 st0
              counting_below (counting_patient 32) (countdown_actions 500)
              Hinit ltac:(lia) Hquiet) as (st' & Hrun & Hpc' & Hitems & _).
  exists st0, st'. split_and!; [done | lia | done | done | done | done].
Defined.

Lemma the_script_raises_nothing_witness :
  PyRandom.below counting ∧ PyRandom.patient counting 32 batch_size ∧
  (∀ e, (action_space_sample (countdown 100) e).1 < 2)%nat ∧
  ∃ st0, start_100 = Some st0 ∧
    ∀ n, (∃ st, run_100 n st0 = Some st) ∨
         (∃ m st, (m < n)%nat ∧ run_100 m st0 = Some st ∧ pc st = Exited).
Proof.
  split_and!; [apply counting_below | apply counting_patient |
               apply countdown_actions |].
  apply (the_script_raises_nothing counting (countdown 100) scalar 32 (λ _, 0) 0%nat
           counting_below (counting_patient 32) (countdown_actions 100)).
Defined.

Lemma target_gradients_are_never_cleared_witness :
  ∃ st0 st,
    start_100 = Some st0 ∧ run_100 500 st0 = Some st ∧
    (∀ id, grad (heap st0 id) = None) ∧
    (∀ id, id ∈ parameters target_net → is_Some (grad (heap st id))).
Proof.
  destruct (calm_passes 500 ltac:(lia))
    as (st0 & st & _ & Hinit & Hrun & _ & Hcount & _).
  destruct (target_gradients_are_never_cleared counting (countdown 100) scalar 32
              (λ _, 0) 0%nat 500 st0 st Hinit Hrun) as [Hnone Hsome].
  assert (Hlate : (32 <= eps_count st)%nat) by (rewrite Hcount; lia).
  exists st0, st. split_and!; [assumption | assumption | assumption |].
  exact (Hsome Hlate).
Defined.

Lemma load_state_dict_round_trip_witness :
  let h : Torch.heap scalar := λ id, mkParam (TI:=scalar) (INR id) None in
  ∃ h',
    NoDup (parameters target_net) ∧
    load_state_dict scalar target_net (state_dict scalar online_net h) h = Some h' ∧
    state_dict scalar target_net h' = state_dict scalar online_net h.
Proof.
  intros h.
  destruct (load_state_dict_copies scalar online_net target_net h target_net_NoDup)
    as (h' & Hload & _).
  destruct (load_state_dict_round_trip scalar target_net
              (state_dict scalar online_net h) h h' target_net_NoDup Hload)
    as (Hback & _).
  exists h'. split_and!; [apply target_net_NoDup | done | done].
Defined.

Lemma update_applies_fresh_gradients_witness :
  let experiences : list experience := [([0; 0; 0; 0], 0%nat, 1, false, [0; 0; 0; 0])] in
  let h : Torch.heap scalar := λ id, mkParam (TI:=scalar) 0 None in
  let o := Adam scalar (parameters online_net) 5e-4 in
  ∃ h' o',
    params o = parameters online_net ∧
    update scalar experiences h o = Some (h', o') ∧
    h' 0%nat = mkParam (TI:=scalar) (0 - 5e-4 * 1) (Some 1) ∧
    h' 4%nat = mkParam (TI:=scalar) 0 (Some 1).
Proof.
  intros experiences h o.
  destruct (update_total scalar experiences h o) as [[h' o'] Hupdate].
  { repeat constructor. }
  destruct (update_applies_fresh_gradients scalar experiences h o h' o' eq_refl Hupdate)
    as (_ & Honline & Htarget).
  exists h', o'. split_and!; [done | done | |].
  - apply (Honline 0%nat). apply list_elem_of_In. simpl. tauto.
  - apply (Htarget 4%nat). apply list_elem_of_In. simpl. tauto.
Defined.

Lemma sample_of_everything_is_a_permutation_witness :
  PyRandom.below counting ∧
  ∃ result g',
    PyRandom.sample counting 32 (seq 0 32) (length (seq 0 32)) 0%nat = Some (result, g') ∧
    result ≡ₚ seq 0 32.
Proof.
  split; [apply counting_below|].
  apply (sample_of_everything_is_a_permutation counting 32 (seq 0 32) 0%nat
           counting_below).
Defined.

End OnDoublesMore.
